(** * c_str::basic_builder: ownership and pointer identity

    A shallow embedding of [src/c_str_builder.hpp].  A [basic_builder] holds a
    [std::basic_string] member ([_m_zero_suffixed]) and a pointer ([_m_ptr]);
    whether the object owns the characters behind the pointer is decided by
    comparing the pointer with [_m_zero_suffixed.c_str()].  The embedding
    therefore keeps addresses: objects live in a store indexed by their
    location ([this]), and a pointer value says what storage it refers to. *)

From stdpp Require Import gmap list option.

(** ** Template parameters *)

(** The character types admitted by the [common_char_type] concept. *)
Inductive common_char_type := char | wchar_t | char8_t | char16_t | char32_t.

(** [enum class if_null]. *)
Inductive if_null := make_zero_length | keep_null_pointer.

(** A character is its code unit; the code only ever compares it with the
    null character. *)
Abbreviation value_type := N (only parsing).

(** ** Pointers

    A [const CharT *] is null, or the address of the static member [_m_zero]
    of an instantiation, or the address of an array that the caller owns, or
    the address [_m_zero_suffixed.c_str()] of the string held by the
    [basic_builder] object at a location.

    [std::basic_string] is the library's, not this repository's.  What the
    model takes from it: [c_str()] is never null, the characters behind it
    are the string's followed by a null character, and two strings alive at
    once have different [c_str()].  Storage is named by the object that holds
    the string; whether a move or swap of strings hands the allocation over
    or copies the characters is not modelled, and the source does not depend
    on it, since it reads [c_str()] again after every operation on
    [_m_zero_suffixed]. *)
Inductive const_pointer :=
| nullptr
| addr_m_zero (CharT : common_char_type) (NullBehavior : if_null)
| addr_caller (a : N)
| addr_zero_suffixed (this : N).

Global Instance common_char_type_eq_dec : EqDecision common_char_type.
Proof. solve_decision. Defined.
Global Instance if_null_eq_dec : EqDecision if_null.
Proof. solve_decision. Defined.
Global Instance const_pointer_eq_dec : EqDecision const_pointer.
Proof. solve_decision. Defined.

(** The private data members of [basic_builder]. *)
Record basic_builder := mk_basic_builder {
  _m_zero_suffixed : list value_type;
  _m_ptr : const_pointer
}.

(** [std::basic_string::c_str()] of the member [_m_zero_suffixed] of the
    object at [this]. *)
Definition c_str (this : N) : const_pointer := addr_zero_suffixed this.

(** The argument of the converting constructor, by the branch of [_get_ptr]
    that its type selects. *)
Inductive StrLikeT :=
| nullptr_t
    (* std::nullptr_t *)
| pointer (strLike : const_pointer)
    (* const CharT *, null or not *)
| basic_string (strLike_c_str : const_pointer)
    (* std::basic_string or std::filesystem::path, by what its c_str() returns *)
| range (cdata : const_pointer) (elems : list value_type).
    (* any other contiguous sized range: its data address and its elements *)

(** [std::char_traits::length]: scan for the first null character.  The
    argument is what is stored from the pointer to the end of its array;
    running off the array is undefined and modelled as [None]. *)
Fixpoint traits_length (s : list value_type) : option nat :=
  match s with
  | [] => None
  | c :: s' => if decide (c = 0%N) then Some 0 else S <$> traits_length s'
  end.

(** The characters of the C string that starts an array: those before the
    first null character. *)
Fixpoint c_string (s : list value_type) : option (list value_type) :=
  match s with
  | [] => None
  | c :: s' => if decide (c = 0%N) then Some [] else (c ::.) <$> c_string s'
  end.

Definition set_zero_suffixed (this : N) (s : list value_type)
    (w : gmap N basic_builder) : gmap N basic_builder :=
  alter (λ b, mk_basic_builder s (_m_ptr b)) this w.

Definition set_ptr (this : N) (p : const_pointer)
    (w : gmap N basic_builder) : gmap N basic_builder :=
  alter (λ b, mk_basic_builder (_m_zero_suffixed b) p) this w.

(** Addresses a caller can own: anything but the storage of a builder's own
    string. *)
Definition is_caller_owned (p : const_pointer) : bool :=
  match p with
  | addr_zero_suffixed _ => false
  | _ => true
  end.

Section basic_builder.
Context (CharT : common_char_type) (NullBehavior : if_null).
(** What the caller's arrays hold, from each address to the end of the
    array. *)
Context (caller_memory : N → list value_type).

(** [static constexpr value_type _m_zero{}]. *)
Definition _m_zero : value_type := 0%N.

(** What is stored from a pointer on; [None] for a pointer that must not be
    read. *)
Definition deref (w : gmap N basic_builder) (p : const_pointer)
    : option (list value_type) :=
  match p with
  | nullptr => None
  | addr_m_zero _ _ => Some [_m_zero]
  | addr_caller a => Some (caller_memory a)
  | addr_zero_suffixed l => b ← w !! l; Some (_m_zero_suffixed b ++ [0%N])
  end.

(** [_get_ptr(nullptr)]: the two [std::is_null_pointer_v] branches. *)
Definition _get_ptr_nullptr : const_pointer :=
  match NullBehavior with
  | make_zero_length => addr_m_zero CharT NullBehavior
  | keep_null_pointer => nullptr
  end.

(** [_get_ptr].  It runs while [_m_ptr] is initialised; [zs] is the member
    [_m_zero_suffixed] at that moment, and the result carries its value
    afterwards together with the returned pointer. *)
Definition _get_ptr (this : N) (strLike : StrLikeT) (zs : list value_type)
    : list value_type * const_pointer :=
  match strLike with
  | nullptr_t => (zs, _get_ptr_nullptr)
  | pointer p =>
      if decide (p = nullptr) then (zs, _get_ptr_nullptr) else (zs, p)
  | basic_string p => (zs, p)
  | range cdata elems =>
      if decide (elems = []) then (zs, addr_m_zero CharT NullBehavior)
      else if decide (List.last elems 0%N ≠ 0%N)
           then (elems, c_str this)
           else (zs, cdata)
  end.

Definition _copy_used_member (this other : N) (w : gmap N basic_builder)
    : option (gmap N basic_builder) :=
  o ← w !! other;
  _ ← w !! this;
  if decide (c_str other = _m_ptr o)
  then Some (set_ptr this (c_str this)
               (set_zero_suffixed this (_m_zero_suffixed o) w))
  else Some (set_ptr this (_m_ptr o) w).

Definition _move_used_member (this other : N) (w : gmap N basic_builder)
    : option (gmap N basic_builder) :=
  o ← w !! other;
  _ ← w !! this;
  let w1 :=
    if decide (c_str other = _m_ptr o)
    then set_ptr this (c_str this)
           (set_zero_suffixed other []
              (set_zero_suffixed this (_m_zero_suffixed o) w))
    else set_ptr this (_m_ptr o) w in
  Some (match NullBehavior with
        | make_zero_length => set_ptr other (addr_m_zero CharT NullBehavior) w1
        | keep_null_pointer => set_ptr other nullptr w1
        end).

(** The converting constructor; [_m_zero_suffixed{}] is initialised first. *)
Definition basic_builder_from (this : N) (strLike : StrLikeT)
    (w : gmap N basic_builder) : gmap N basic_builder :=
  let '(zs, p) := _get_ptr this strLike [] in
  <[this := mk_basic_builder zs p]> w.

(** The default constructor: [_m_ptr{ _get_ptr(nullptr) }]. *)
Definition basic_builder_default (this : N) (w : gmap N basic_builder)
    : gmap N basic_builder :=
  basic_builder_from this nullptr_t w.

(** The copy constructor: both members take their default member
    initialisers, then the body runs. *)
Definition basic_builder_copy (this other : N) (w : gmap N basic_builder)
    : option (gmap N basic_builder) :=
  _copy_used_member this other (<[this := mk_basic_builder [] nullptr]> w).

(** The move constructor. *)
Definition basic_builder_move (this other : N) (w : gmap N basic_builder)
    : option (gmap N basic_builder) :=
  _move_used_member this other (<[this := mk_basic_builder [] nullptr]> w).

(** [operator=(const basic_builder &)]. *)
Definition copy_assign (this other : N) (w : gmap N basic_builder)
    : option (gmap N basic_builder) :=
  if decide (this ≠ other) then _copy_used_member this other w
  else _ ← w !! this; Some w.

(** [operator=(basic_builder &&)]. *)
Definition move_assign (this other : N) (w : gmap N basic_builder)
    : option (gmap N basic_builder) :=
  if decide (this ≠ other) then _move_used_member this other w
  else _ ← w !! this; Some w.

(** [get()]. *)
Definition get (w : gmap N basic_builder) (this : N) : option const_pointer :=
  _m_ptr <$> w !! this.

(** [length()]. *)
Definition length (w : gmap N basic_builder) (this : N) : option nat :=
  b ← w !! this;
  match NullBehavior with
  | make_zero_length => deref w (_m_ptr b) ≫= traits_length
  | keep_null_pointer =>
      if decide (_m_ptr b ≠ nullptr)
      then deref w (_m_ptr b) ≫= traits_length
      else Some 0
  end.

(** What a C function reads through [get()]: the characters up to the first
    terminator. *)
Definition get_string (w : gmap N basic_builder) (this : N)
    : option (list value_type) :=
  b ← w !! this; s ← deref w (_m_ptr b); c_string s.

(** [swap()]. *)
Definition swap (this other : N) (w : gmap N basic_builder)
    : option (gmap N basic_builder) :=
  t ← w !! this;
  o ← w !! other;
  if decide (this = other) then Some w
  else
    let thisBufUsed := bool_decide (c_str this = _m_ptr t) in
    let otherBufUsed := bool_decide (c_str other = _m_ptr o) in
    if negb thisBufUsed && negb otherBufUsed
    then Some (set_ptr other (_m_ptr t) (set_ptr this (_m_ptr o) w))
    else
      let w1 := set_zero_suffixed other (_m_zero_suffixed t)
                  (set_zero_suffixed this (_m_zero_suffixed o) w) in
      if thisBufUsed && otherBufUsed
      then Some (set_ptr other (c_str other) (set_ptr this (c_str this) w1))
      else if thisBufUsed
      then Some (set_ptr other (c_str other) (set_ptr this (_m_ptr o) w1))
      else Some (set_ptr this (c_str this) (set_ptr other (_m_ptr t) w1)).

(** ** Programs over the public interface *)

(** A range views an array: its elements are what the array holds from the
    data address on. *)
Definition range_in_memory (cdata : const_pointer) (elems : list value_type)
    : bool :=
  bool_decide (elems = [])
  || match deref ∅ cdata with
     | Some m => bool_decide (elems `prefix_of` m)
     | None => false
     end.

(** The sources a caller can pass: a pointer of the caller's (null or not),
    a live string or path, whose [c_str()] is never null, and a range over
    memory of the caller's.  A pointer into the string of a [basic_builder]
    is not among them: any operation on that string invalidates it. *)
Definition valid_source (strLike : StrLikeT) : bool :=
  match strLike with
  | nullptr_t => true
  | pointer p => is_caller_owned p
  | basic_string p =>
      match p with addr_caller _ => true | _ => false end
  | range cdata elems => is_caller_owned cdata && range_in_memory cdata elems
  end.

(** One call of the public interface, on the objects at the given
    locations. *)
Inductive call :=
| construct_default (this : N)
| construct_from (this : N) (strLike : StrLikeT)
| construct_copy (this other : N)
| construct_move (this other : N)
| assign_copy (this other : N)
| assign_move (this other : N)
| call_swap (this other : N).

(** A constructor runs at a location that holds no object yet; the argument
    of a copy or move constructor is an object that exists already. *)
Definition exec (c : call) (w : gmap N basic_builder)
    : option (gmap N basic_builder) :=
  match c with
  | construct_default this =>
      if decide (w !! this = None) then Some (basic_builder_default this w)
      else None
  | construct_from this strLike =>
      if decide (w !! this = None) then
        if valid_source strLike then Some (basic_builder_from this strLike w)
        else None
      else None
  | construct_copy this other =>
      if decide (w !! this = None)
      then _ ← w !! other; basic_builder_copy this other w
      else None
  | construct_move this other =>
      if decide (w !! this = None)
      then _ ← w !! other; basic_builder_move this other w
      else None
  | assign_copy this other => copy_assign this other w
  | assign_move this other => move_assign this other w
  | call_swap this other => swap this other w
  end.

Fixpoint run (cs : list call) (w : gmap N basic_builder)
    : option (gmap N basic_builder) :=
  match cs with
  | [] => Some w
  | c :: cs' => w' ← exec c w; run cs' w'
  end.

(** The stores a program can produce from nothing. *)
Definition reachable (w : gmap N basic_builder) : Prop :=
  ∃ cs, run cs ∅ = Some w.

(** ** Invariants *)

(** A pointer held by the object at [this] refers to no other object's
    string, and under [make_zero_length] it is not null. *)
Definition ptr_ok (this : N) (p : const_pointer) : Prop :=
  (∀ l, p = addr_zero_suffixed l → l = this)
  ∧ (NullBehavior = make_zero_length → p ≠ nullptr).

Definition world_ok (w : gmap N basic_builder) : Prop :=
  ∀ l b, w !! l = Some b → ptr_ok l (_m_ptr b).

(** [world_ok] everywhere but at the object under construction or
    assignment. *)
Definition ok_but (x : N) (w : gmap N basic_builder) : Prop :=
  ∀ l b, l ≠ x → w !! l = Some b → ptr_ok l (_m_ptr b).

(** Invariant I2 of the specification, for one object. *)
Definition I2 (this : N) (b : basic_builder) : Prop :=
  _m_zero_suffixed b ≠ [] → _m_ptr b = c_str this.

Definition I2_holds (w : gmap N basic_builder) : Prop :=
  ∀ l b, w !! l = Some b → I2 l b.

(** The two assignment operators. *)
Definition is_assignment (c : call) : bool :=
  match c with
  | assign_copy _ _ | assign_move _ _ => true
  | _ => false
  end.

(** Where a pointer that referred to the string of [from] points once the
    string's contents are held by [to]. *)
Definition repoint (from to : N) (p : const_pointer) : const_pointer :=
  if decide (p = c_str from) then c_str to else p.

End basic_builder.

(** ** Example programs *)

Definition ABC : list value_type := [65; 66; 67]%N.

(** The caller's memory: an array ['A','B','C'] at 100, the string literal
    "ABC" at 200, and a lone null character anywhere else. *)
Definition example_memory (a : N) : list value_type :=
  if decide (a = 100%N) then ABC
  else if decide (a = 200%N) then ABC ++ [0%N]
  else [0%N].

(** [basic_builder<char> a{ arr }; basic_builder<char> b;], with [a] at 0
    and [b] at 1. *)
Definition owner_and_default : list call :=
  [construct_from 0 (range (addr_caller 100) ABC); construct_default 1].

(** The store after [owner_and_default] under [make_zero_length]. *)
Definition owner_store : gmap N basic_builder :=
  <[1%N := mk_basic_builder [] (addr_m_zero char make_zero_length)]>
    (<[0%N := mk_basic_builder ABC (c_str 0)]> ∅).

(** [basic_builder<char> a{ arr }; basic_builder<char> b; a = b;]. *)
Definition assign_over_owner : list call :=
  owner_and_default ++ [assign_copy 0 1].

(** ** The rest of the interface *)

Section rest.
Context (CharT : common_char_type) (NullBehavior : if_null).
Context (caller_memory : N → list value_type).

(** [~basic_builder() = default]: the object ends, and its members with
    it. *)
Definition basic_builder_dtor (this : N) (w : gmap N basic_builder)
    : option (gmap N basic_builder) :=
  _ ← w !! this; Some (delete this w).

(** The objects a call takes by non-const reference or constructs. *)
Definition written (c : call) : list N :=
  match c with
  | construct_default this | construct_from this _
  | construct_copy this _ | assign_copy this _ => [this]
  | construct_move this other | assign_move this other
  | call_swap this other => [this; other]
  end.

(** The address that comes with a source. *)
Definition source_pointer (strLike : StrLikeT) : list const_pointer :=
  match strLike with
  | nullptr_t => []
  | pointer p => [p]
  | basic_string p => [p]
  | range cdata _ => [cdata]
  end.

(** The addresses a call receives from the caller. *)
Definition given (c : call) : list const_pointer :=
  match c with
  | construct_from _ strLike => source_pointer strLike
  | _ => []
  end.

(** A pointer of the caller's behind which a null character is found. *)
Definition terminated (p : const_pointer) : Prop :=
  is_Some (deref caller_memory ∅ p ≫= traits_length).

(** The caller's side of the contract of [_get_ptr]: a pointer that is not
    null, and the [c_str()] of a string or path, lead to a terminator. *)
Definition trusted_terminated (c : call) : Prop :=
  match c with
  | construct_from _ (pointer p) => p ≠ nullptr → terminated p
  | construct_from _ (basic_string p) => terminated p
  | _ => True
  end.

(** Every pointer of the store is the holder's own [c_str()] or has the
    property [P]. *)
Definition held (P : const_pointer → Prop) (w : gmap N basic_builder)
    : Prop :=
  ∀ l b, w !! l = Some b → _m_ptr b = c_str l ∨ P (_m_ptr b).

(** What [_get_ptr] can return for a source besides the holder's own
    [c_str()], [&_m_zero] and [_get_ptr(nullptr)]. *)
Definition source_with (P : const_pointer → Prop) (strLike : StrLikeT)
    : Prop :=
  match strLike with
  | nullptr_t => True
  | pointer p => p ≠ nullptr → P p
  | basic_string p => P p
  | range cdata elems =>
      elems ≠ [] → List.last elems 0%N = 0%N → P cdata
  end.

Definition call_with (P : const_pointer → Prop) (c : call) : Prop :=
  match c with
  | construct_from _ strLike =>
      valid_source caller_memory strLike = true → source_with P strLike
  | _ => True
  end.

(** An object whose pointer is its own [c_str()] holds characters. *)
Definition owner_filled (w : gmap N basic_builder) : Prop :=
  ∀ l b, w !! l = Some b → _m_ptr b = c_str l → _m_zero_suffixed b ≠ [].

End rest.

(** ** The exercise program [tests.cpp] *)

(** [DEF_NULL_BEHAVIOR], as the header defines it for an includer that does
    not. *)
Definition DEF_NULL_BEHAVIOR : if_null := make_zero_length.

(** The letters of the legend that [main] prints: N, the pointer for a
    passed null pointer; S, a pointer to the caller's array, not owned; Z,
    the pointer to the static zero value; I, the pointer to the internal
    string; E, the pointer to the buffer of a string class. *)
Inductive legend := legend_N | legend_S | legend_Z | legend_I | legend_E.

(** The objects that [main] declares, each at the address of its test's
    number: arrays of 'A','B','C' without a terminator (7, 11, 12, 15), the
    same with a terminator (the literal, [arrnt], the storage of the
    string: 4, 8, 13, 14, 16), and the empty string literal and empty path
    (3, 17). *)
Definition tests_memory (a : N) : list value_type :=
  if bool_decide (a ∈ [7; 11; 12; 15]%N) then ABC
  else if bool_decide (a ∈ [4; 8; 13; 14; 16]%N) then ABC ++ [0%N]
  else [0%N].

(** [print_info]: the "direct use" variant that the file compiles,
    [const c_str::basic_builder<CharT> csb{ string_like }], with [CharT] the
    [char] that [string_like_element] selects; the result is what it prints,
    [csb.get()] and [csb.length()]. *)
Definition print_info (csb : N) (string_like : StrLikeT)
    : option const_pointer * option nat :=
  let w := basic_builder_from char DEF_NULL_BEHAVIOR csb string_like ∅ in
  (get w csb, length DEF_NULL_BEHAVIOR tests_memory w csb).

(** The calls of [main] in order: the letter and the length it announces,
    and the argument of [print_info]. *)
Definition main : list (legend * nat * StrLikeT) :=
  [ (legend_N, 0, nullptr_t);                                 (*  1 nullptr *)
    (legend_N, 0, pointer nullptr);                           (*  2 npch *)
    (legend_S, 0, pointer (addr_caller 3));                   (*  3 cstr *)
    (legend_S, 3, range (addr_caller 4) (ABC ++ [0%N]));      (*  4 strlit *)
    (legend_Z, 0, range nullptr []);                          (*  5 zlview *)
    (legend_Z, 0, range nullptr []);                          (*  6 zlspan *)
    (legend_I, 3, range (addr_caller 7) ABC);                 (*  7 arr *)
    (legend_S, 3, range (addr_caller 8) (ABC ++ [0%N]));      (*  8 arrnt *)
    (legend_I, 3, range (addr_caller 7) ABC);                 (*  9 spn *)
    (legend_Z, 0, range nullptr []);                          (* 10 zlvec *)
    (legend_I, 3, range (addr_caller 11) ABC);                (* 11 inilst *)
    (legend_I, 3, range (addr_caller 12) ABC);                (* 12 arrlit *)
    (legend_I, 3, range (addr_caller 13) ABC);                (* 13 view *)
    (legend_S, 3, range (addr_caller 14) (ABC ++ [0%N]));     (* 14 ntspan *)
    (legend_I, 3, range (addr_caller 15) ABC);                (* 15 vec *)
    (legend_E, 3, basic_string (addr_caller 16));             (* 16 str *)
    (legend_E, 0, basic_string (addr_caller 17)) ].           (* 17 path *)

(** The pointer that a letter of the legend stands for, for a builder at
    [csb] made from [string_like]. *)
Definition legend_pointer (csb : N) (e : legend) (string_like : StrLikeT)
    : option const_pointer :=
  match e, string_like with
  | legend_N, _ => Some (_get_ptr_nullptr char DEF_NULL_BEHAVIOR)
  | legend_Z, _ => Some (addr_m_zero char DEF_NULL_BEHAVIOR)
  | legend_I, _ => Some (c_str csb)
  | legend_S, pointer p => Some p
  | legend_S, range cdata _ => Some cdata
  | legend_E, basic_string p => Some p
  | _, _ => None
  end.

(** The three variants of [print_info] that the file keeps in comments,
    as programs: [csb2{ string_like }; csb; csb2.swap(csb);], then
    [csb2{ string_like }; csb{ csb2 };], then [csb; csb = { string_like };]
    with the temporary at [csb2]. *)
Definition print_info_variants (csb csb2 : N) (string_like : StrLikeT)
    : list (list call) :=
  [ [construct_from csb2 string_like; construct_default csb;
     call_swap csb2 csb];
    [construct_from csb2 string_like; construct_copy csb csb2];
    [construct_default csb; construct_from csb2 string_like;
     assign_move csb csb2] ].

(** * Proofs *)

(** ** Member assignment in the store *)

Lemma lookup_set_ptr_eq this p w b :
  w !! this = Some b →
  set_ptr this p w !! this = Some (mk_basic_builder (_m_zero_suffixed b) p).
Proof. intros H. unfold set_ptr. by rewrite lookup_alter_eq, H. Qed.

Lemma lookup_set_ptr_ne this p w l :
  this ≠ l → set_ptr this p w !! l = w !! l.
Proof. intros H. unfold set_ptr. by rewrite lookup_alter_ne. Qed.

Lemma lookup_set_zero_suffixed_eq this s w b :
  w !! this = Some b →
  set_zero_suffixed this s w !! this = Some (mk_basic_builder s (_m_ptr b)).
Proof. intros H. unfold set_zero_suffixed. by rewrite lookup_alter_eq, H. Qed.

Lemma lookup_set_zero_suffixed_ne this s w l :
  this ≠ l → set_zero_suffixed this s w !! l = w !! l.
Proof. intros H. unfold set_zero_suffixed. by rewrite lookup_alter_ne. Qed.

(** Normalises lookups through member assignments and insertions. *)
Ltac store :=
  repeat first
    [ rewrite lookup_insert_eq
    | rewrite lookup_insert_ne by congruence
    | rewrite lookup_set_ptr_ne by congruence
    | rewrite lookup_set_zero_suffixed_ne by congruence
    | erewrite lookup_set_ptr_eq by (store; eauto)
    | erewrite lookup_set_zero_suffixed_eq by (store; eauto) ];
  simpl.

(** ** Scanning for the terminator *)

Lemma traits_length_c_string s :
  traits_length s = List.length <$> c_string s.
Proof.
  induction s as [|c s IH]; simpl; [done|].
  case_decide; [done|]. rewrite IH. by destruct (c_string s).
Qed.

Lemma c_string_terminated pre rest :
  0%N ∉ pre → c_string (pre ++ 0%N :: rest) = Some pre.
Proof.
  induction pre as [|c pre IH]; simpl; intros Hpre.
  - done.
  - apply not_elem_of_cons in Hpre as [Hc Hpre].
    case_decide; [congruence|]. by rewrite IH.
Qed.

Lemma traits_length_terminated pre rest :
  0%N ∉ pre → traits_length (pre ++ 0%N :: rest) = Some (List.length pre).
Proof.
  intros H. by rewrite traits_length_c_string, c_string_terminated.
Qed.

Section construction.
Context (CharT : common_char_type) (NullBehavior : if_null).
Context (caller_memory : N → list value_type).

Local Abbreviation basic_builder_from := (basic_builder_from CharT NullBehavior).
Local Abbreviation length := (length NullBehavior caller_memory).
Local Abbreviation deref := (deref caller_memory).
Local Abbreviation valid_source := (valid_source caller_memory).

Lemma length_terminated w this b pre rest :
  w !! this = Some b →
  deref w (_m_ptr b) = Some (pre ++ 0%N :: rest) →
  0%N ∉ pre →
  length w this = Some (List.length pre).
Proof.
  intros Hb Hd Hpre. unfold length. rewrite Hb. simpl.
  assert (_m_ptr b ≠ nullptr) by (intros E; by rewrite E in Hd).
  destruct NullBehavior; [|rewrite decide_True by done];
    rewrite Hd; simpl; by apply traits_length_terminated.
Qed.

(** A pointer of the caller's reads the same in every store. *)
Lemma deref_caller_owned w w' p :
  is_caller_owned p = true → deref w p = deref w' p.
Proof. by destruct p. Qed.

Lemma valid_range_deref cdata elems w :
  valid_source (range cdata elems) = true → elems ≠ [] →
  ∃ rest, deref w cdata = Some (elems ++ rest).
Proof.
  simpl. intros [Hown Hmem]%andb_prop Hne. unfold range_in_memory in Hmem.
  rewrite bool_decide_false in Hmem by done. simpl in Hmem.
  rewrite (deref_caller_owned w ∅) by done.
  destruct (deref ∅ cdata) as [m|]; [|done].
  apply bool_decide_eq_true in Hmem as [rest ->]. by exists rest.
Qed.

Lemma lookup_basic_builder_from this strLike w :
  basic_builder_from this strLike w !! this
  = Some (mk_basic_builder (_get_ptr CharT NullBehavior this strLike []).1
                           (_get_ptr CharT NullBehavior this strLike []).2).
Proof.
  unfold basic_builder_from.
  destruct (_get_ptr CharT NullBehavior this strLike []) as [zs p].
  by store.
Qed.

Lemma only_ranges_fill this strLike w b :
  basic_builder_from this strLike w !! this = Some b →
  _m_zero_suffixed b ≠ [] →
  ∃ cdata elems, strLike = range cdata elems
    ∧ elems ≠ [] ∧ List.last elems 0%N ≠ 0%N.
Proof.
  rewrite lookup_basic_builder_from. intros [= <-]. simpl.
  destruct strLike as [|p|p|cdata elems]; simpl;
    repeat case_decide; simpl; try done.
  intros _. by exists cdata, elems.
Qed.

(** C1.  Construction from a generic range at [cdata] with elements [elems]:
    an empty range gives the address of the static [_m_zero] (not null, under
    either policy) and leaves [_m_zero_suffixed] empty; a range that is not
    empty gives its own data address and leaves [_m_zero_suffixed] empty if and
    only if its last element is the null character; otherwise
    [_m_zero_suffixed] receives every element, [get()] is its [c_str()], where
    the elements are followed by a terminator.  No other argument of the
    constructor fills [_m_zero_suffixed]. *)
Theorem range_decision this cdata elems w :
  let w' := basic_builder_from this (range cdata elems) w in
  ∃ b, w' !! this = Some b
    ∧ get w' this = Some (_m_ptr b)
    ∧ (elems = [] →
         _m_ptr b = addr_m_zero CharT NullBehavior
         ∧ _m_ptr b ≠ nullptr
         ∧ _m_zero_suffixed b = [])
    ∧ (elems ≠ [] →
         (List.last elems 0%N = 0%N
          ↔ _m_ptr b = cdata ∧ _m_zero_suffixed b = []))
    ∧ (elems ≠ [] → List.last elems 0%N ≠ 0%N →
         _m_zero_suffixed b = elems
         ∧ _m_ptr b = c_str this
         ∧ deref w' (c_str this) = Some (elems ++ [0%N]))
    ∧ (∀ strLike b',
         basic_builder_from this strLike w !! this = Some b' →
         _m_zero_suffixed b' ≠ [] →
         ∃ cdata' elems', strLike = range cdata' elems'
           ∧ elems' ≠ [] ∧ List.last elems' 0%N ≠ 0%N).
Proof.
  intros w'. eexists. split; [apply lookup_basic_builder_from|].
  split; [unfold get; subst w'; by rewrite lookup_basic_builder_from|].
  simpl. split_and!.
  - intros ->. by rewrite decide_True.
  - intros He. rewrite decide_False by done. case_decide; simpl.
    + split; [done|]. by intros [_ ?].
    + done.
  - intros He Hl. rewrite decide_False, decide_True by done. simpl.
    split_and!; [done..|].
    subst w'. by rewrite lookup_basic_builder_from; simpl;
      rewrite decide_False, decide_True by done.
  - intros strLike b'. apply only_ranges_fill.
Qed.

(** C4.  A raw pointer that is not null is returned by [get()] as it is, and
    so is the [c_str()] of a [std::basic_string] or [std::filesystem::path];
    [_m_zero_suffixed] stays empty in both cases. *)
Theorem pointer_and_string_identity this w :
  (∀ p, p ≠ nullptr →
     let w' := basic_builder_from this (pointer p) w in
     get w' this = Some p
     ∧ _m_zero_suffixed <$> w' !! this = Some [])
  ∧ (∀ p,
     let w' := basic_builder_from this (basic_string p) w in
     get w' this = Some p
     ∧ _m_zero_suffixed <$> w' !! this = Some []).
Proof.
  split; intros p; [intros Hp|]; simpl;
    unfold basic_builder_from, get; simpl.
  - rewrite decide_False by done. by store.
  - by store.
Qed.

(** C8.  [length()] is the number of characters stored from [get()] up to the
    first null character; after construction from a range whose last element
    is not null and whose first null character is at index [length pre], it is
    [length pre], while [_m_zero_suffixed] holds the whole range; under
    [keep_null_pointer] it is 0 for a null [get()], which is never read. *)
Theorem length_first_terminator :
  (∀ w this b pre rest,
     w !! this = Some b →
     deref w (_m_ptr b) = Some (pre ++ 0%N :: rest) →
     0%N ∉ pre →
     length w this = Some (List.length pre))
  ∧ (∀ w this cdata pre rest,
     0%N ∉ pre →
     List.last (pre ++ 0%N :: rest) 0%N ≠ 0%N →
     let w' := basic_builder_from this (range cdata (pre ++ 0%N :: rest)) w in
     _m_zero_suffixed <$> w' !! this = Some (pre ++ 0%N :: rest)
     ∧ get w' this = Some (c_str this)
     ∧ length w' this = Some (List.length pre))
  ∧ (∀ w this b,
     NullBehavior = keep_null_pointer →
     w !! this = Some b →
     _m_ptr b = nullptr →
     deref w (_m_ptr b) = None ∧ length w this = Some 0).
Proof.
  split; [|split].
  - apply length_terminated.
  - intros w this cdata pre rest Hpre Hlast w'.
    assert (w' !! this
            = Some (mk_basic_builder (pre ++ 0%N :: rest) (c_str this))) as Hb.
    { subst w'. unfold basic_builder_from. simpl.
      rewrite decide_False by (by destruct pre).
      rewrite decide_True by done. by store. }
    unfold get. rewrite Hb. repeat split.
    eapply length_terminated with (rest := rest ++ [0%N]); [done| |done].
    simpl. rewrite Hb. simpl. by rewrite <- app_assoc.
  - intros w this b Hnb Hb Hp. rewrite Hp. split; [done|].
    unfold length. rewrite Hb, Hnb. simpl. by rewrite Hp.
Qed.

(** C10.  A range whose only element is the null character is not treated as
    empty: [get()] is the range's own data address, [_m_zero_suffixed] stays
    empty, and [length()] is 0. *)
Theorem single_null_element this cdata w :
  valid_source (range cdata [0%N]) = true →
  let w' := basic_builder_from this (range cdata [0%N]) w in
  get w' this = Some cdata
  ∧ _m_zero_suffixed <$> w' !! this = Some []
  ∧ length w' this = Some 0.
Proof.
  intros Hv w'.
  assert (w' !! this = Some (mk_basic_builder [] cdata)) as Hb.
  { subst w'. unfold basic_builder_from. simpl. by store. }
  unfold get. rewrite Hb. repeat split.
  destruct (valid_range_deref cdata [0%N] w' Hv) as [rest Hd]; [done|].
  by apply (length_terminated w' this _ [] rest Hb); [|apply not_elem_of_nil].
Qed.

End construction.

(** ** The invariant of reachable stores *)

Section invariant.
Context (CharT : common_char_type) (NullBehavior : if_null).
Context (caller_memory : N → list value_type).

Local Abbreviation ptr_ok := (ptr_ok NullBehavior).
Local Abbreviation world_ok := (world_ok NullBehavior).
Local Abbreviation ok_but := (ok_but NullBehavior).
Local Abbreviation valid_source := (valid_source caller_memory).
Local Abbreviation exec := (exec CharT NullBehavior caller_memory).
Local Abbreviation run := (run CharT NullBehavior caller_memory).
Local Abbreviation reachable := (reachable CharT NullBehavior caller_memory).

Lemma ptr_ok_c_str this : ptr_ok this (c_str this).
Proof. split; [by intros l [= ->]|done]. Qed.

Lemma ptr_ok_caller_owned this p :
  is_caller_owned p = true →
  (NullBehavior = make_zero_length → p ≠ nullptr) →
  ptr_ok this p.
Proof. intros Hp Hn. split; [|done]. by intros l ->. Qed.

Lemma ptr_ok_null_state this :
  ptr_ok this (_get_ptr_nullptr CharT NullBehavior).
Proof.
  apply ptr_ok_caller_owned; unfold _get_ptr_nullptr;
    by destruct NullBehavior.
Qed.

(** A pointer that is not the holder's own [c_str()] is one of the
    caller's, and fits any other holder. *)
Lemma ptr_ok_borrowed l b x :
  ptr_ok l (_m_ptr b) → c_str l ≠ _m_ptr b → ptr_ok x (_m_ptr b).
Proof.
  intros [Hal Hn] Hne. split; [|done].
  intros l' E. destruct Hne. rewrite E. unfold c_str. f_equal.
  symmetry. by apply Hal.
Qed.

Lemma borrowed_caller_owned l b :
  ptr_ok l (_m_ptr b) → c_str l ≠ _m_ptr b →
  is_caller_owned (_m_ptr b) = true.
Proof.
  intros [Hal _] Hne. destruct (_m_ptr b) as [| | |l'] eqn:E; try done.
  destruct Hne. unfold c_str. f_equal. symmetry. by apply Hal.
Qed.

Lemma world_ok_ok_but x w : world_ok w → ok_but x w.
Proof. intros H l b _. apply H. Qed.

Lemma ok_but_set_zero_suffixed x l s w :
  ok_but x w → ok_but x (set_zero_suffixed l s w).
Proof.
  intros H l' b' Hx. unfold set_zero_suffixed.
  rewrite lookup_alter_Some. intros [[_ (b & Hb & ->)]|[_ Hb]]; eauto.
  simpl. eauto.
Qed.

Lemma world_ok_set_zero_suffixed l s w :
  world_ok w → world_ok (set_zero_suffixed l s w).
Proof.
  intros H l' b'. unfold set_zero_suffixed.
  rewrite lookup_alter_Some. intros [[_ (b & Hb & ->)]|[_ Hb]]; eauto.
  simpl. eauto.
Qed.

Lemma ok_but_set_ptr x p w :
  ok_but x w → ptr_ok x p → world_ok (set_ptr x p w).
Proof.
  intros H Hp l' b'. unfold set_ptr.
  rewrite lookup_alter_Some. intros [[<- (b & Hb & ->)]|[Hne Hb]]; eauto.
Qed.

Lemma ok_but_insert x b w : world_ok w → ok_but x (<[x:=b]> w).
Proof.
  intros H l b' Hne. rewrite lookup_insert_ne by done. apply H.
Qed.

Lemma world_ok_insert x b w :
  world_ok w → ptr_ok x (_m_ptr b) → world_ok (<[x:=b]> w).
Proof.
  intros H Hb l b'. rewrite lookup_insert_Some.
  intros [[<- <-]|[_ Hl]]; eauto.
Qed.

Lemma _get_ptr_ok this strLike zs :
  valid_source strLike = true →
  ptr_ok this (_get_ptr CharT NullBehavior this strLike zs).2.
Proof.
  destruct strLike as [|p|p|cdata elems]; simpl.
  - intros _. apply ptr_ok_null_state.
  - intros Hp. case_decide; simpl; [apply ptr_ok_null_state|].
    by apply ptr_ok_caller_owned.
  - by destruct p.
  - intros [Hown Hmem]%andb_prop. repeat case_decide; simpl.
    + by apply ptr_ok_caller_owned.
    + apply ptr_ok_c_str.
    + apply ptr_ok_caller_owned; [done|]. intros _ ->.
      unfold range_in_memory in Hmem.
      by rewrite bool_decide_false in Hmem.
Qed.

Lemma basic_builder_from_ok this strLike w :
  world_ok w → valid_source strLike = true →
  world_ok (basic_builder_from CharT NullBehavior this strLike w).
Proof.
  intros Hw Hs. unfold basic_builder_from.
  pose proof (_get_ptr_ok this strLike [] Hs) as Hp.
  destruct (_get_ptr CharT NullBehavior this strLike []) as [zs p].
  by apply world_ok_insert.
Qed.

Lemma _copy_used_member_ok this other w w' :
  this ≠ other → ok_but this w →
  _copy_used_member this other w = Some w' → world_ok w'.
Proof.
  intros Hne Hw. unfold _copy_used_member.
  destruct (w !! other) as [o|] eqn:Ho; [|done].
  destruct (w !! this) as [t|] eqn:Ht; [|done]. simpl.
  case_decide; intros [= <-].
  - apply ok_but_set_ptr; [|apply ptr_ok_c_str].
    by apply ok_but_set_zero_suffixed.
  - apply ok_but_set_ptr; [done|].
    apply ptr_ok_borrowed with other; [|done]. apply (Hw other o); done.
Qed.

(** The pointer left in a moved-from object is the one [_get_ptr(nullptr)]
    returns. *)
Lemma moved_from_null_state other (w : gmap N basic_builder) :
  match NullBehavior with
  | make_zero_length => set_ptr other (addr_m_zero CharT NullBehavior) w
  | keep_null_pointer => set_ptr other nullptr w
  end = set_ptr other (_get_ptr_nullptr CharT NullBehavior) w.
Proof. unfold _get_ptr_nullptr. by destruct NullBehavior. Qed.

Lemma _move_used_member_ok this other w w' :
  this ≠ other → ok_but this w →
  _move_used_member CharT NullBehavior this other w = Some w' → world_ok w'.
Proof.
  intros Hne Hw. unfold _move_used_member.
  destruct (w !! other) as [o|] eqn:Ho; [|done].
  destruct (w !! this) as [t|] eqn:Ht; [|done]. simpl.
  rewrite moved_from_null_state. intros [= <-].
  assert (world_ok
            (if decide (c_str other = _m_ptr o)
             then set_ptr this (c_str this)
                    (set_zero_suffixed other []
                       (set_zero_suffixed this (_m_zero_suffixed o) w))
             else set_ptr this (_m_ptr o) w)) as Hw1.
  { case_decide.
    - apply ok_but_set_ptr; [|apply ptr_ok_c_str].
      by do 2 apply ok_but_set_zero_suffixed.
    - apply ok_but_set_ptr; [done|].
      apply ptr_ok_borrowed with other; [|done]. apply (Hw other o); done. }
  apply ok_but_set_ptr; [by apply world_ok_ok_but|].
  apply ptr_ok_null_state.
Qed.

Lemma swap_ok this other w w' :
  world_ok w → swap this other w = Some w' → world_ok w'.
Proof.
  intros Hw. unfold swap.
  destruct (w !! this) as [t|] eqn:Ht; [|done].
  destruct (w !! other) as [o|] eqn:Ho; [|done]. simpl.
  case_decide; [by intros [= <-]|].
  pose proof (Hw this t Ht) as Hpt. pose proof (Hw other o Ho) as Hpo.
  repeat case_bool_decide; simpl; intros [= <-];
    repeat first
      [ apply ok_but_set_ptr; [apply world_ok_ok_but|]
      | apply world_ok_set_zero_suffixed
      | assumption
      | apply ptr_ok_c_str
      | by apply ptr_ok_borrowed with this
      | by apply ptr_ok_borrowed with other ].
Qed.

Lemma exec_ok c w w' : world_ok w → exec c w = Some w' → world_ok w'.
Proof.
  intros Hw. destruct c as [this|this s|this other|this other
                           |this other|this other|this other]; simpl.
  - case_decide; [|done]. intros [= <-].
    by apply basic_builder_from_ok.
  - case_decide; [|done]. destruct (valid_source s) eqn:Hs; [|done].
    intros [= <-]. by apply basic_builder_from_ok.
  - case_decide as Hf; [|done].
    destruct (w !! other) as [o|] eqn:Ho; simpl; [|done].
    apply _copy_used_member_ok; [congruence|by apply ok_but_insert].
  - case_decide as Hf; [|done].
    destruct (w !! other) as [o|] eqn:Ho; simpl; [|done].
    apply _move_used_member_ok; [congruence|by apply ok_but_insert].
  - unfold copy_assign. case_decide.
    + apply _copy_used_member_ok; [done|by apply world_ok_ok_but].
    + destruct (w !! this); [|done]. by intros [= <-].
  - unfold move_assign. case_decide.
    + apply _move_used_member_ok; [done|by apply world_ok_ok_but].
    + destruct (w !! this); [|done]. by intros [= <-].
  - by apply swap_ok.
Qed.

Lemma run_ok cs w w' : world_ok w → run cs w = Some w' → world_ok w'.
Proof.
  revert w. induction cs as [|c cs IH]; simpl; intros w Hw.
  - by intros [= <-].
  - destruct (exec c w) as [w1|] eqn:Hc; [|done]. simpl.
    apply IH. by apply exec_ok with c w.
Qed.

Lemma reachable_ok w : reachable w → world_ok w.
Proof. intros [cs Hcs]. by apply run_ok with cs ∅. Qed.

End invariant.

(** ** Copy, move and swap *)

Section transfer.
Context (CharT : common_char_type) (NullBehavior : if_null).
Context (caller_memory : N → list value_type).

Local Abbreviation deref := (deref caller_memory).
Local Abbreviation length := (length NullBehavior caller_memory).
Local Abbreviation _get_ptr_nullptr := (_get_ptr_nullptr CharT NullBehavior).
Local Abbreviation _move_used_member :=
  (_move_used_member CharT NullBehavior).
Local Abbreviation basic_builder_move :=
  (basic_builder_move CharT NullBehavior).
Local Abbreviation move_assign := (move_assign CharT NullBehavior).
Local Abbreviation basic_builder_default :=
  (basic_builder_default CharT NullBehavior).
Local Abbreviation get_string := (get_string caller_memory).

Lemma deref_c_str w l b :
  w !! l = Some b → deref w (c_str l) = Some (_m_zero_suffixed b ++ [0%N]).
Proof. intros H. simpl. by rewrite H. Qed.

(** [length()] depends on whether the pointer is null and on what is stored
    behind it, and on nothing else. *)
Lemma length_ext w w' l l' b b' :
  w !! l = Some b → w' !! l' = Some b' →
  (_m_ptr b = nullptr ↔ _m_ptr b' = nullptr) →
  deref w (_m_ptr b) = deref w' (_m_ptr b') →
  length w l = length w' l'.
Proof.
  intros Hb Hb' Hn Hd. unfold length. rewrite Hb, Hb'. simpl.
  rewrite Hd. destruct NullBehavior; [done|].
  repeat case_decide; try done; tauto.
Qed.

Lemma length_null_state w l b :
  w !! l = Some b → _m_ptr b = _get_ptr_nullptr → length w l = Some 0.
Proof.
  intros Hb Hp. unfold length. rewrite Hb. simpl. rewrite Hp.
  unfold _get_ptr_nullptr. by destruct NullBehavior.
Qed.

Lemma c_string_zero_suffixed s :
  ∃ k, c_string (s ++ [0%N]) = Some k.
Proof.
  induction s as [|c s [k IH]]; simpl; [by eexists|].
  case_decide; [by eexists|]. rewrite IH. by eexists.
Qed.

Lemma _move_used_member_lookup this other w t o :
  this ≠ other → w !! this = Some t → w !! other = Some o →
  ∃ w', _move_used_member this other w = Some w'
    ∧ w' !! this
      = Some (if decide (c_str other = _m_ptr o)
              then mk_basic_builder (_m_zero_suffixed o) (c_str this)
              else mk_basic_builder (_m_zero_suffixed t) (_m_ptr o))
    ∧ w' !! other
      = Some (mk_basic_builder
                (if decide (c_str other = _m_ptr o) then []
                 else _m_zero_suffixed o)
                _get_ptr_nullptr)
    ∧ (∀ l, l ≠ this → l ≠ other → w' !! l = w !! l).
Proof.
  intros Hne Ht Ho. unfold _move_used_member. rewrite Ho, Ht. simpl.
  rewrite moved_from_null_state. eexists. split; [done|].
  case_decide; store; split_and!; try done; intros; by store.
Qed.

Lemma _copy_used_member_lookup this other w t o :
  this ≠ other → w !! this = Some t → w !! other = Some o →
  ∃ w', _copy_used_member this other w = Some w'
    ∧ w' !! this
      = Some (if decide (c_str other = _m_ptr o)
              then mk_basic_builder (_m_zero_suffixed o) (c_str this)
              else mk_basic_builder (_m_zero_suffixed t) (_m_ptr o))
    ∧ (∀ l, l ≠ this → w' !! l = w !! l).
Proof.
  intros Hne Ht Ho. unfold _copy_used_member. rewrite Ho, Ht. simpl.
  case_decide; eexists; (split; [done|]); store;
    (split; [done|]); intros; by store.
Qed.

(** C5.  A move, by the move constructor or by move assignment from another
    object: when the source's pointer is its own [c_str()], the characters
    of its [_m_zero_suffixed] pass to the destination, the source's string is
    left empty and the destination's pointer is its own [c_str()], behind
    which the characters now are; otherwise the destination receives the
    source's pointer as it is.  Either way, [get()] and [length()] of the
    moved-from object are those of a default-constructed one: the address of
    [_m_zero] under [make_zero_length], null under [keep_null_pointer], and
    length 0.  Move assignment of an object to itself changes nothing. *)
Theorem move_transfers w this other o mv :
  w !! other = Some o →
  mv = basic_builder_move this other w
  ∨ (is_Some (w !! this) ∧ mv = move_assign this other w) →
  (this = other → mv = move_assign this other w → mv = Some w)
  ∧ (this ≠ other →
     ∃ w', mv = Some w'
       ∧ (c_str other = _m_ptr o →
            _m_zero_suffixed <$> w' !! this = Some (_m_zero_suffixed o)
            ∧ _m_zero_suffixed <$> w' !! other = Some []
            ∧ get w' this = Some (c_str this)
            ∧ deref w' (c_str this) = Some (_m_zero_suffixed o ++ [0%N]))
       ∧ (c_str other ≠ _m_ptr o → get w' this = Some (_m_ptr o))
       ∧ get w' other
         = Some (match NullBehavior with
                 | make_zero_length => addr_m_zero CharT NullBehavior
                 | keep_null_pointer => nullptr
                 end)
       ∧ length w' other = Some 0
       ∧ get w' other = get (basic_builder_default other w') other
       ∧ length w' other = length (basic_builder_default other w') other).
Proof.
  intros Ho Hmv. split.
  - intros -> ->. unfold move_assign. rewrite decide_False by tauto.
    by rewrite Ho.
  - intros Hne.
    assert (∃ t w0, w0 !! this = Some t ∧ w0 !! other = Some o
                    ∧ mv = _move_used_member this other w0)
      as (t & w0 & Ht & Ho0 & ->).
    { destruct Hmv as [->|[[t Ht] ->]].
      - exists (mk_basic_builder [] nullptr), (<[this:=mk_basic_builder [] nullptr]> w).
        by store.
      - exists t, w. split_and!; [done..|].
        unfold move_assign. by rewrite decide_True. }
    destruct (_move_used_member_lookup this other w0 t o Hne Ht Ho0)
      as (w' & -> & Ht' & Ho' & _).
    exists w'. split; [done|].
    assert (length w' other = Some 0) as Hlen
      by by eapply length_null_state.
    unfold get. rewrite Ht', Ho'. simpl. split_and!.
    + intros Hu. rewrite decide_True in Ht' by done.
      rewrite !decide_True by done. by rewrite Ht'.
    + intros Hu. by rewrite decide_False.
    + unfold _get_ptr_nullptr. done.
    + done.
    + unfold basic_builder_default. by rewrite lookup_basic_builder_from.
    + rewrite Hlen. symmetry. eapply length_null_state.
      * unfold basic_builder_default. apply lookup_basic_builder_from.
      * done.
Qed.

(** C7.  A copy, by the copy constructor or by copy assignment from another
    object, leaves the source as it was.  When the source's pointer is its
    own [c_str()], the destination receives a copy of the source's
    [_m_zero_suffixed] and points to its own [c_str()]: its [get()] differs
    from the source's, its [length()] and its characters up to the first
    terminator are the source's, and each of the two objects answers
    [get()] and [length()] the same in every store that holds it unchanged,
    whatever became of the other.  Otherwise the destination's [get()] is the
    source's.  Copy assignment of an object to itself changes nothing. *)
Theorem copy_duplicates w this other o cp :
  w !! other = Some o →
  cp = basic_builder_copy this other w
  ∨ (is_Some (w !! this) ∧ cp = copy_assign this other w) →
  (this = other → cp = copy_assign this other w → cp = Some w)
  ∧ (this ≠ other →
     ∃ w', cp = Some w'
       ∧ w' !! other = Some o
       ∧ (c_str other = _m_ptr o →
            _m_zero_suffixed <$> w' !! this = Some (_m_zero_suffixed o)
            ∧ get w' this = Some (c_str this)
            ∧ get w' this ≠ get w' other
            ∧ length w' this = length w' other
            ∧ (∃ s, get_string w' this = Some s
                    ∧ get_string w' other = Some s)
            ∧ (∀ w'' l, l = this ∨ l = other →
                 w'' !! l = w' !! l →
                 get w'' l = get w' l ∧ length w'' l = length w' l))
       ∧ (c_str other ≠ _m_ptr o →
            get w' this = Some (_m_ptr o) ∧ get w' this = get w other)).
Proof.
  intros Ho Hcp. split.
  - intros -> ->. unfold copy_assign. rewrite decide_False by tauto.
    by rewrite Ho.
  - intros Hne.
    assert (∃ t w0, w0 !! this = Some t ∧ w0 !! other = Some o
                    ∧ cp = _copy_used_member this other w0)
      as (t & w0 & Ht & Ho0 & ->).
    { destruct Hcp as [->|[[t Ht] ->]].
      - exists (mk_basic_builder [] nullptr), (<[this:=mk_basic_builder [] nullptr]> w).
        by store.
      - exists t, w. split_and!; [done..|].
        unfold copy_assign. by rewrite decide_True. }
    destruct (_copy_used_member_lookup this other w0 t o Hne Ht Ho0)
      as (w' & -> & Ht' & Hfr).
    assert (w' !! other = Some o) as Ho' by (by rewrite Hfr).
    exists w'. split; [done|]. split; [done|].
    unfold get. rewrite Ht', Ho', Ho. simpl. split.
    + intros Hu. rewrite decide_True in Ht' |- * by done.
      simpl. split_and!; try done.
      * rewrite <- Hu. intros [= E]. done.
      * eapply length_ext; [done..| |]; simpl; [by rewrite <- Hu|].
        by rewrite <- Hu; simpl; rewrite Ht', Ho'.
      * destruct (c_string_zero_suffixed (_m_zero_suffixed o)) as [k Hk].
        exists k. unfold get_string. rewrite Ht', Ho'. simpl.
        rewrite <- Hu. simpl. rewrite Ht', Ho'. simpl. by rewrite Hk.
      * intros w'' l Hl Hw''. rewrite Hw''. split; [done|].
        destruct Hl as [-> | ->].
        -- rewrite Ht' in Hw''. eapply length_ext; [done..| |]; [done|].
           simpl. by rewrite Hw'', Ht'.
        -- rewrite Ho' in Hw''. eapply length_ext; [done..| |]; [done|].
           rewrite <- Hu. simpl. by rewrite Hw'', Ho'.
    + intros Hu. by rewrite decide_False.
Qed.

End transfer.

Section swapping.
Context (CharT : common_char_type) (NullBehavior : if_null).
Context (caller_memory : N → list value_type).

Local Abbreviation deref := (deref caller_memory).
Local Abbreviation length := (length NullBehavior caller_memory).
Local Abbreviation get_string := (get_string caller_memory).
Local Abbreviation ptr_ok := (ptr_ok NullBehavior).
Local Abbreviation reachable := (reachable CharT NullBehavior caller_memory).

Lemma get_string_ext w w' l l' b b' :
  w !! l = Some b → w' !! l' = Some b' →
  deref w (_m_ptr b) = deref w' (_m_ptr b') →
  get_string w l = get_string w' l'.
Proof.
  intros Hb Hb' Hd. unfold get_string. rewrite Hb, Hb'. simpl. by rewrite Hd.
Qed.

(** The members of both objects after [swap()]. *)
Lemma swap_lookup this other w t o :
  this ≠ other → w !! this = Some t → w !! other = Some o →
  ∃ w' t' o', swap this other w = Some w'
    ∧ w' !! this = Some t' ∧ w' !! other = Some o'
    ∧ _m_ptr t' = repoint other this (_m_ptr o)
    ∧ _m_ptr o' = repoint this other (_m_ptr t)
    ∧ (c_str other = _m_ptr o → _m_zero_suffixed t' = _m_zero_suffixed o)
    ∧ (c_str this = _m_ptr t → _m_zero_suffixed o' = _m_zero_suffixed t)
    ∧ (c_str this ≠ _m_ptr t → c_str other ≠ _m_ptr o →
         _m_zero_suffixed t' = _m_zero_suffixed t
         ∧ _m_zero_suffixed o' = _m_zero_suffixed o)
    ∧ (c_str this = _m_ptr t ∨ c_str other = _m_ptr o →
         _m_zero_suffixed t' = _m_zero_suffixed o
         ∧ _m_zero_suffixed o' = _m_zero_suffixed t)
    ∧ (∀ l, l ≠ this → l ≠ other → w' !! l = w !! l).
Proof.
  intros Hne Ht Ho. unfold swap, repoint. rewrite Ht, Ho. simpl.
  rewrite decide_False by done.
  repeat case_bool_decide; simpl; do 3 eexists;
    (split; [reflexivity|]); store;
    (split; [reflexivity|]); (split; [reflexivity|]); simpl;
    repeat case_decide; try congruence;
    split_and!; try done; try (intros [?|?]; congruence); intros; by store.
Qed.

(** What the receiving side of an exchange shows: the other side's string
    and length as they were. *)
Lemma received_state w w' x y bx bY :
  w' !! x = Some bx → w !! y = Some bY →
  ptr_ok y (_m_ptr bY) →
  _m_ptr bx = repoint y x (_m_ptr bY) →
  (c_str y = _m_ptr bY → _m_zero_suffixed bx = _m_zero_suffixed bY) →
  length w' x = length w y ∧ get_string w' x = get_string w y.
Proof.
  intros Hx Hy Hok Hp Hzs. unfold repoint in Hp.
  assert ((_m_ptr bx = nullptr ↔ _m_ptr bY = nullptr)
          ∧ deref w' (_m_ptr bx) = deref w (_m_ptr bY)) as [Hn Hd].
  { case_decide as Hu.
    - rewrite Hp, Hu. split; [done|]. simpl. rewrite Hx, Hy. simpl.
      by rewrite Hzs.
    - rewrite Hp. split; [done|]. apply deref_caller_owned.
      apply borrowed_caller_owned with NullBehavior y; [done|congruence]. }
  split; [by eapply length_ext|by eapply get_string_ext].
Qed.

(** C6.  In a store that a program has produced, [a.swap(b)] for two
    different objects gives each the state of the other: [get()] is the
    other's former pointer, except that a pointer to the other's own [c_str()]
    becomes a pointer to the receiver's own [c_str()], whose string then
    holds the other's former characters; [length()] and the characters read
    through [get()] are the other's former ones; no third object changes.
    [a.swap(a)] changes nothing. *)
Theorem swap_exchanges w this other t o :
  reachable w → w !! this = Some t → w !! other = Some o →
  (this = other → swap this other w = Some w)
  ∧ (this ≠ other →
     ∃ w', swap this other w = Some w'
       ∧ get w' this = Some (repoint other this (_m_ptr o))
       ∧ get w' other = Some (repoint this other (_m_ptr t))
       ∧ (c_str other = _m_ptr o →
            _m_zero_suffixed <$> w' !! this = Some (_m_zero_suffixed o))
       ∧ (c_str this = _m_ptr t →
            _m_zero_suffixed <$> w' !! other = Some (_m_zero_suffixed t))
       ∧ length w' this = length w other
       ∧ length w' other = length w this
       ∧ get_string w' this = get_string w other
       ∧ get_string w' other = get_string w this
       ∧ (∀ l, l ≠ this → l ≠ other → w' !! l = w !! l)).
Proof.
  intros Hr Ht Ho. apply (reachable_ok CharT) in Hr. split.
  - intros <-. unfold swap. rewrite Ht. simpl. by rewrite decide_True.
  - intros Hne.
    destruct (swap_lookup this other w t o Hne Ht Ho)
      as (w' & t' & o' & Hs & Ht' & Ho' & Hpt & Hpo & Hzt & Hzo & _ & _ & Hfr).
    destruct (received_state w w' this other t' o Ht' Ho (Hr _ _ Ho) Hpt Hzt).
    destruct (received_state w w' other this o' t Ho' Ht (Hr _ _ Ht) Hpo Hzo).
    exists w'. unfold get. rewrite Ht', Ho'. simpl.
    split_and!; try done; try intros Hu; f_equal; auto.
Qed.

End swapping.

(** ** Invariant I2 *)

Section I2.
Context (CharT : common_char_type) (NullBehavior : if_null).
Context (caller_memory : N → list value_type).

Local Abbreviation exec := (exec CharT NullBehavior caller_memory).
Local Abbreviation basic_builder_from := (basic_builder_from CharT NullBehavior).

Lemma _get_ptr_I2 this strLike :
  I2 this (mk_basic_builder (_get_ptr CharT NullBehavior this strLike []).1
                            (_get_ptr CharT NullBehavior this strLike []).2).
Proof.
  unfold I2. destruct strLike as [|p|p|cdata elems]; simpl;
    repeat case_decide; simpl; done.
Qed.

Lemma basic_builder_from_I2 this strLike w :
  I2_holds w → I2_holds (basic_builder_from this strLike w).
Proof.
  intros Hw l b. destruct (decide (l = this)) as [->|Hne].
  - rewrite lookup_basic_builder_from. intros [= <-]. apply _get_ptr_I2.
  - unfold basic_builder_from.
    destruct (_get_ptr CharT NullBehavior this strLike []) as [zs p].
    rewrite lookup_insert_ne by done. apply Hw.
Qed.

Lemma basic_builder_copy_I2 this other w w' :
  I2_holds w → w !! this = None → is_Some (w !! other) →
  basic_builder_copy this other w = Some w' → I2_holds w'.
Proof.
  intros Hw Hf [o Ho]. unfold basic_builder_copy.
  assert (this ≠ other) as Hne by congruence.
  destruct (_copy_used_member_lookup this other
              (<[this:=mk_basic_builder [] nullptr]> w)
              (mk_basic_builder [] nullptr) o Hne)
    as (w1 & -> & Ht' & Hfr); [by store..|].
  intros [= <-] l b. destruct (decide (l = this)) as [->|Hl].
  - rewrite Ht'. intros [= <-]. unfold I2. by case_decide.
  - rewrite Hfr, lookup_insert_ne by done. apply Hw.
Qed.

Lemma basic_builder_move_I2 this other w w' :
  I2_holds w → w !! this = None → is_Some (w !! other) →
  basic_builder_move CharT NullBehavior this other w = Some w' →
  I2_holds w'.
Proof.
  intros Hw Hf [o Ho]. unfold basic_builder_move.
  assert (this ≠ other) as Hne by congruence.
  destruct (_move_used_member_lookup CharT NullBehavior this other
              (<[this:=mk_basic_builder [] nullptr]> w)
              (mk_basic_builder [] nullptr) o Hne)
    as (w1 & -> & Ht' & Ho' & Hfr); [by store..|].
  intros [= <-] l b. destruct (decide (l = this)) as [->|Hl];
    [|destruct (decide (l = other)) as [->|Hl']].
  - rewrite Ht'. intros [= <-]. unfold I2. by case_decide.
  - rewrite Ho'. intros [= <-]. unfold I2. case_decide as Hu; [done|].
    intros Hz. simpl in Hz. destruct Hu. symmetry. by apply (Hw other o).
  - rewrite Hfr, lookup_insert_ne by done. apply Hw.
Qed.

Lemma swap_I2 this other w w' :
  I2_holds w → swap this other w = Some w' → I2_holds w'.
Proof.
  intros Hw. destruct (decide (this = other)) as [<-|Hne].
  { unfold swap. destruct (w !! this); simpl; [|done].
    rewrite decide_True by done. by intros [= <-]. }
  destruct (w !! this) as [t|] eqn:Ht;
    [|unfold swap; by rewrite Ht].
  destruct (w !! other) as [o|] eqn:Ho;
    [|unfold swap; by rewrite Ht, Ho].
  destruct (swap_lookup this other w t o Hne Ht Ho)
    as (w1 & t' & o' & -> & Ht' & Ho' & Hpt & Hpo & _ & _ & Hno & Hyes & Hfr).
  pose proof (Hw this t Ht) as It. pose proof (Hw other o Ho) as Io.
  unfold I2 in It, Io.
  intros [= <-] l b. destruct (decide (l = this)) as [->|Hl];
    [|destruct (decide (l = other)) as [->|Hl']].
  - rewrite Ht'. intros [= <-] Hz. rewrite Hpt. unfold repoint.
    case_decide as Hu; [done|]. destruct Hz.
    destruct (decide (c_str this = _m_ptr t)) as [Hut|Hut].
    + destruct (Hyes (or_introl Hut)) as [-> _].
      destruct (_m_zero_suffixed o); [done|]. destruct Hu. by apply Io.
    + destruct Hno as [-> _]; [done|congruence|].
      destruct (_m_zero_suffixed t); [done|]. destruct Hut.
      symmetry. by apply It.
  - rewrite Ho'. intros [= <-] Hz. rewrite Hpo. unfold repoint.
    case_decide as Hu; [done|]. destruct Hz.
    destruct (decide (c_str other = _m_ptr o)) as [Huo|Huo].
    + destruct (Hyes (or_intror Huo)) as [_ ->].
      destruct (_m_zero_suffixed t); [done|]. destruct Hu. by apply It.
    + destruct Hno as [_ ->]; [congruence|done|].
      destruct (_m_zero_suffixed o); [done|]. destruct Huo.
      symmetry. by apply Io.
  - rewrite Hfr by done. apply Hw.
Qed.

(** Every constructor and [swap()] keep invariant I2; only the assignment
    operators can break it. *)
Lemma I2_kept_without_assignment c w w' :
  I2_holds w → is_assignment c = false → exec c w = Some w' → I2_holds w'.
Proof.
  intros Hw. destruct c as [this|this s|this other|this other
                           |this other|this other|this other];
    simpl; try done; intros _.
  - case_decide; [|done]. intros [= <-]. by apply basic_builder_from_I2.
  - case_decide; [|done]. destruct (valid_source _ s); [|done].
    intros [= <-]. by apply basic_builder_from_I2.
  - case_decide as Hf; [|done].
    destruct (w !! other) as [o|] eqn:Ho; simpl; [|done].
    by apply basic_builder_copy_I2.
  - case_decide as Hf; [|done].
    destruct (w !! other) as [o|] eqn:Ho; simpl; [|done].
    by apply basic_builder_move_I2.
  - by apply swap_I2.
Qed.

End I2.

(** C9.  Under [make_zero_length], no object of a store that a program has
    produced holds a null pointer, so the scan of [length()] starts at a
    pointer that is not null. *)
Theorem never_null_under_make_zero_length CharT caller_memory w this b :
  reachable CharT make_zero_length caller_memory w →
  w !! this = Some b →
  _m_ptr b ≠ nullptr
  ∧ get w this ≠ Some nullptr
  ∧ length make_zero_length caller_memory w this
    = deref caller_memory w (_m_ptr b) ≫= traits_length.
Proof.
  intros Hr Hb. apply reachable_ok in Hr. destruct (Hr this b Hb) as [_ Hn].
  unfold get, length. rewrite Hb. simpl. split_and!; [auto| |done].
  intros [= E]. by apply Hn.
Qed.

(** C2.  For every character type, construction from [nullptr], from a null
    pointer to the character type, and default construction give the same
    object: under [make_zero_length] its [get()] is the address of [_m_zero],
    which is not null, and under [keep_null_pointer] it is null; its
    [length()] is 0 under both. *)
Theorem null_source CharT caller_memory this w :
  Forall (λ strLike,
    let wz := basic_builder_from CharT make_zero_length this strLike w in
    let wk := basic_builder_from CharT keep_null_pointer this strLike w in
    wz = basic_builder_default CharT make_zero_length this w
    ∧ wk = basic_builder_default CharT keep_null_pointer this w
    ∧ get wz this = Some (addr_m_zero CharT make_zero_length)
    ∧ get wz this ≠ Some nullptr
    ∧ length make_zero_length caller_memory wz this = Some 0
    ∧ get wk this = Some nullptr
    ∧ length keep_null_pointer caller_memory wk this = Some 0)
    [nullptr_t; pointer nullptr].
Proof.
  repeat constructor; unfold get, length, basic_builder_from; simpl;
    by store.
Qed.

(** C3.  Invariant I2 does not survive copy assignment from an object that
    does not own its buffer to one that does: after
    [basic_builder<char> a{ arr }; basic_builder<char> b; a = b;] the string
    [_m_zero_suffixed] of [a] still holds ['A','B','C'] while its pointer is
    the address of [_m_zero]. *)
Theorem I2_broken_by_assignment :
  ∃ w b,
    run char make_zero_length example_memory assign_over_owner ∅ = Some w
    ∧ w !! 0%N = Some b
    ∧ _m_zero_suffixed b = ABC
    ∧ _m_ptr b = addr_m_zero char make_zero_length
    ∧ ¬ I2 0 b.
Proof.
  eexists. eexists. split; [vm_compute; reflexivity|].
  split; [vm_compute; reflexivity|]. split_and!; [done..|].
  unfold I2. simpl. intros H. by specialize (H ltac:(done)).
Qed.

(** ** The cases of the exercise program [tests.cpp] *)

(** Test 4: the string literal "ABC" ([const char[4]]) is used where it is. *)
Example test_4_string_literal :
  let w := basic_builder_from char make_zero_length 0
             (range (addr_caller 200) (ABC ++ [0%N])) ∅ in
  get w 0%N = Some (addr_caller 200)
  ∧ length make_zero_length example_memory w 0%N = Some 3.
Proof. by vm_compute. Qed.

(** Test 5: a zero-length view gives the static zero value. *)
Example test_5_empty_view :
  let w := basic_builder_from char make_zero_length 0 (range nullptr []) ∅ in
  get w 0%N = Some (addr_m_zero char make_zero_length)
  ∧ length make_zero_length example_memory w 0%N = Some 0.
Proof. by vm_compute. Qed.

(** Test 7: [std::array{ 'A', 'B', 'C' }] is copied. *)
Example test_7_array :
  let w := basic_builder_from char make_zero_length 0
             (range (addr_caller 100) ABC) ∅ in
  w = <[0%N := mk_basic_builder ABC (c_str 0)]> ∅
  ∧ length make_zero_length example_memory w 0%N = Some 3.
Proof. by vm_compute. Qed.

(** A range with a null character inside and none at the end is copied
    whole, and [length()] stops at the null character. *)
Example embedded_null :
  let w := basic_builder_from char make_zero_length 0
             (range (addr_caller 100) [65; 0; 66]%N) ∅ in
  w !! 0%N = Some (mk_basic_builder [65; 0; 66]%N (c_str 0))
  ∧ length make_zero_length example_memory w 0%N = Some 1.
Proof. by vm_compute. Qed.

Example owner_store_reachable :
  run char make_zero_length example_memory owner_and_default ∅
  = Some owner_store.
Proof. reflexivity. Qed.

(** [b = std::move(a)]: the characters pass to [b], and [a] is left as if
    default-constructed. *)
Example move_assignment_from_owner :
  run char make_zero_length example_memory
    (owner_and_default ++ [assign_move 1 0]) ∅
  = Some (<[0%N := mk_basic_builder [] (addr_m_zero char make_zero_length)]>
            (<[1%N := mk_basic_builder ABC (c_str 1)]> ∅)).
Proof. by vm_compute. Qed.

(** The same under [keep_null_pointer]: [a] is left with a null pointer,
    and its [length()] is 0. *)
Example move_assignment_keep_null :
  ∃ w, run char keep_null_pointer example_memory
         [construct_from 0 (range (addr_caller 100) ABC);
          construct_default 1; assign_move 1 0] ∅ = Some w
    ∧ get w 0%N = Some nullptr
    ∧ length keep_null_pointer example_memory w 0%N = Some 0
    ∧ length keep_null_pointer example_memory w 1%N = Some 3.
Proof. eexists. by vm_compute. Qed.

(** [a = a; a = std::move(a); a.swap(a);] change nothing. *)
Example self_operations :
  run char make_zero_length example_memory
    (owner_and_default ++ [assign_copy 0 0; assign_move 0 0; call_swap 0 0]) ∅
  = Some owner_store.
Proof. by vm_compute. Qed.

(** Swapping an owner with a copy of the string literal's borrower. *)
Example swap_owner_and_borrower :
  ∃ w, run char make_zero_length example_memory
         [construct_from 0 (range (addr_caller 100) [65; 66]%N);
          construct_from 1 (pointer (addr_caller 200));
          call_swap 0 1] ∅ = Some w
    ∧ get w 0%N = Some (addr_caller 200)
    ∧ length make_zero_length example_memory w 0%N = Some 3
    ∧ get w 1%N = Some (c_str 1)
    ∧ length make_zero_length example_memory w 1%N = Some 2.
Proof. eexists. by vm_compute. Qed.

(** ** Instances of the theorems that carry hypotheses *)

Lemma single_null_element_witness :
  get (basic_builder_from char make_zero_length 0
         (range (addr_caller 300) [0%N]) ∅) 0%N
  = Some (addr_caller 300)
  ∧ _m_zero_suffixed
      <$> basic_builder_from char make_zero_length 0
            (range (addr_caller 300) [0%N]) ∅ !! 0%N
    = Some []
  ∧ length make_zero_length example_memory
      (basic_builder_from char make_zero_length 0
         (range (addr_caller 300) [0%N]) ∅) 0%N
    = Some 0.
Proof.
  apply (single_null_element char make_zero_length example_memory
           0 (addr_caller 300) ∅).
  reflexivity.
Defined.

Lemma move_transfers_witness :
  ∃ w', basic_builder_move char make_zero_length 2 0 owner_store = Some w'
    ∧ get w' 2%N = Some (c_str 2)
    ∧ _m_zero_suffixed <$> w' !! 0%N = Some []
    ∧ get w' 0%N = Some (addr_m_zero char make_zero_length)
    ∧ length make_zero_length example_memory w' 0%N = Some 0.
Proof.
  destruct (move_transfers char make_zero_length example_memory
              owner_store 2 0 (mk_basic_builder ABC (c_str 0)) _
              eq_refl (or_introl eq_refl)) as [_ H].
  destruct H as (w' & Hmv & Hown & _ & Hg & Hl & _); [done|].
  destruct (Hown eq_refl) as (_ & Hz & Hg2 & _).
  exists w'. done.
Defined.

Lemma copy_duplicates_witness :
  ∃ w', basic_builder_copy 2 0 owner_store = Some w'
    ∧ get w' 2%N = Some (c_str 2)
    ∧ get w' 0%N = Some (c_str 0)
    ∧ length make_zero_length example_memory w' 2%N
      = length make_zero_length example_memory w' 0%N.
Proof.
  destruct (copy_duplicates make_zero_length example_memory
              owner_store 2 0 (mk_basic_builder ABC (c_str 0)) _
              eq_refl (or_introl eq_refl)) as [_ H].
  destruct H as (w' & Hcp & Ho & Hown & _); [done|].
  destruct (Hown eq_refl) as (_ & Hg & _ & Hl & _).
  exists w'. unfold get at 2. rewrite Ho. done.
Defined.

Lemma swap_exchanges_witness :
  ∃ w', swap 0 1 owner_store = Some w'
    ∧ get w' 0%N = Some (addr_m_zero char make_zero_length)
    ∧ get w' 1%N = Some (c_str 1)
    ∧ length make_zero_length example_memory w' 0%N = Some 0
    ∧ length make_zero_length example_memory w' 1%N = Some 3.
Proof.
  destruct (swap_exchanges char make_zero_length example_memory
              owner_store 0 1
              (mk_basic_builder ABC (c_str 0))
              (mk_basic_builder [] (addr_m_zero char make_zero_length))
              (ex_intro _ owner_and_default eq_refl) eq_refl eq_refl)
    as [_ H].
  destruct H as (w' & Hs & Hg0 & Hg1 & _ & _ & Hl0 & Hl1 & _); [done|].
  exists w'. rewrite Hl0, Hl1. done.
Defined.

Lemma never_null_witness :
  c_str 0 ≠ nullptr
  ∧ get owner_store 0%N ≠ Some nullptr
  ∧ length make_zero_length example_memory owner_store 0%N
    = deref example_memory owner_store (c_str 0) ≫= traits_length.
Proof.
  exact (never_null_under_make_zero_length char example_memory owner_store 0
           (mk_basic_builder ABC (c_str 0))
           (ex_intro _ owner_and_default eq_refl) eq_refl).
Defined.

(** * The rest of the interface *)

Section frame.
Context (CharT : common_char_type) (NullBehavior : if_null).
Context (caller_memory : N → list value_type).

Local Abbreviation deref := (deref caller_memory).
Local Abbreviation length := (length NullBehavior caller_memory).
Local Abbreviation get_string := (get_string caller_memory).
Local Abbreviation world_ok := (world_ok NullBehavior).
Local Abbreviation exec := (exec CharT NullBehavior caller_memory).
Local Abbreviation run := (run CharT NullBehavior caller_memory).
Local Abbreviation reachable := (reachable CharT NullBehavior caller_memory).

Lemma _copy_used_member_frame this other w w' l :
  _copy_used_member this other w = Some w' → l ≠ this → w' !! l = w !! l.
Proof.
  unfold _copy_used_member.
  destruct (w !! other) as [o|]; simpl; [|done].
  destruct (w !! this) as [t|]; simpl; [|done].
  case_decide; intros [= <-] Hl; by store.
Qed.

Lemma _move_used_member_frame this other w w' l :
  _move_used_member CharT NullBehavior this other w = Some w' →
  l ≠ this → l ≠ other → w' !! l = w !! l.
Proof.
  unfold _move_used_member.
  destruct (w !! other) as [o|]; simpl; [|done].
  destruct (w !! this) as [t|]; simpl; [|done].
  rewrite moved_from_null_state.
  case_decide; intros [= <-] Hl Hl'; by store.
Qed.

Lemma swap_frame this other w w' l :
  swap this other w = Some w' → l ≠ this → l ≠ other → w' !! l = w !! l.
Proof.
  unfold swap.
  destruct (w !! this) as [t|]; simpl; [|done].
  destruct (w !! other) as [o|]; simpl; [|done].
  case_decide; [by intros [= <-]|].
  repeat case_bool_decide; simpl; intros [= <-] Hl Hl'; by store.
Qed.

Lemma exec_frame c w w' l :
  exec c w = Some w' → l ∉ written c → w' !! l = w !! l.
Proof.
  destruct c as [this|this s|this other|this other
                |this other|this other|this other]; simpl;
    rewrite ?not_elem_of_cons; intros Hc Hl.
  - case_decide; [|done]. injection Hc as <-.
    unfold basic_builder_default, basic_builder_from. simpl.
    rewrite lookup_insert_ne; [done|]. intros ->. tauto.
  - case_decide; [|done]. destruct (valid_source _ s); [|done].
    injection Hc as <-. unfold basic_builder_from.
    destruct (_get_ptr CharT NullBehavior this s []) as [zs p].
    rewrite lookup_insert_ne; [done|]. intros ->. tauto.
  - case_decide; [|done]. destruct (w !! other); simpl in Hc; [|done].
    unfold basic_builder_copy in Hc.
    rewrite (_copy_used_member_frame _ _ _ _ l Hc) by (intros ->; tauto).
    rewrite lookup_insert_ne; [done|]. intros ->. tauto.
  - case_decide; [|done]. destruct (w !! other); simpl in Hc; [|done].
    unfold basic_builder_move in Hc.
    rewrite (_move_used_member_frame _ _ _ _ l Hc) by (intros ->; tauto).
    rewrite lookup_insert_ne; [done|]. intros ->. tauto.
  - unfold copy_assign in Hc. case_decide.
    + apply (_copy_used_member_frame _ _ _ _ l Hc). intros ->. tauto.
    + destruct (w !! this); [|done]. by injection Hc as <-.
  - unfold move_assign in Hc. case_decide.
    + apply (_move_used_member_frame _ _ _ _ l Hc); intros ->; tauto.
    + destruct (w !! this); [|done]. by injection Hc as <-.
  - apply (swap_frame _ _ _ _ l Hc); intros ->; tauto.
Qed.

(** In a store where no pointer refers to another object's string, what an
    object answers depends on the object alone. *)
Lemma unchanged_reads w w' l :
  world_ok w → w' !! l = w !! l →
  length w' l = length w l ∧ get_string w' l = get_string w l.
Proof.
  intros Hw Hl. destruct (w !! l) as [b|] eqn:Hb.
  - assert (deref w' (_m_ptr b) = deref w (_m_ptr b)) as Hd.
    { destruct (decide (c_str l = _m_ptr b)) as [<-|Hu].
      - simpl. by rewrite Hl, Hb.
      - apply deref_caller_owned.
        by apply borrowed_caller_owned with NullBehavior l; [apply Hw|]. }
    split; [by eapply length_ext|by eapply get_string_ext].
  - unfold length, get_string. by rewrite Hl, Hb.
Qed.

(** X1.  A call changes the members of no object but those it constructs or
    takes by non-const reference; in particular copying leaves the source as
    it was.  In a store that a program has produced, [length()] and the
    characters read through [get()] of every other object stay the same as
    well. *)
Theorem calls_write_only_their_objects c w w' l :
  exec c w = Some w' → l ∉ written c →
  w' !! l = w !! l
  ∧ (reachable w →
     length w' l = length w l ∧ get_string w' l = get_string w l).
Proof.
  intros Hc Hl. pose proof (exec_frame c w w' l Hc Hl) as Hfr.
  split; [done|]. intros Hr. apply unchanged_reads; [|done].
  by apply (reachable_ok CharT NullBehavior caller_memory).
Qed.

(** X2.  In a store that a program has produced, the destructor of one
    object removes that object and leaves every other object with its
    members, its [length()] and the characters read through its [get()]: no
    pointer of another object referred to the string that is destroyed. *)
Theorem dtor_leaves_the_others w w' this l :
  reachable w → basic_builder_dtor this w = Some w' → l ≠ this →
  w' !! this = None
  ∧ w' !! l = w !! l
  ∧ length w' l = length w l
  ∧ get_string w' l = get_string w l.
Proof.
  intros Hr Hd Hl. unfold basic_builder_dtor in Hd.
  destruct (w !! this); simpl in Hd; [|done]. injection Hd as <-.
  assert (delete this w !! l = w !! l) as Hfr by by rewrite lookup_delete_ne.
  split; [apply lookup_delete_eq|]. split; [done|].
  apply unchanged_reads; [|done].
  by apply (reachable_ok CharT NullBehavior caller_memory).
Qed.

End frame.

Section composition.
Context (CharT : common_char_type) (NullBehavior : if_null).
Context (caller_memory : N → list value_type).

Local Abbreviation deref := (deref caller_memory).
Local Abbreviation length := (length NullBehavior caller_memory).
Local Abbreviation get_string := (get_string caller_memory).
Local Abbreviation world_ok := (world_ok NullBehavior).
Local Abbreviation ptr_ok := (ptr_ok NullBehavior).
Local Abbreviation exec := (exec CharT NullBehavior caller_memory).
Local Abbreviation reachable := (reachable CharT NullBehavior caller_memory).
Local Abbreviation move_assign := (move_assign CharT NullBehavior).
Local Abbreviation _get_ptr_nullptr := (_get_ptr_nullptr CharT NullBehavior).

Lemma basic_builder_eq (b b' : basic_builder) :
  _m_zero_suffixed b = _m_zero_suffixed b' → _m_ptr b = _m_ptr b' → b = b'.
Proof. destruct b, b'. simpl. by intros -> ->. Qed.

(** What the destination of a copy or move holds, in the terms of
    [received_state]. *)
Lemma destination_received w w' this other t' o :
  world_ok w → w !! other = Some o →
  w' !! this
  = Some (if decide (c_str other = _m_ptr o)
          then mk_basic_builder (_m_zero_suffixed o) (c_str this)
          else t') →
  (c_str other ≠ _m_ptr o → _m_ptr t' = _m_ptr o) →
  length w' this = length w other ∧ get_string w' this = get_string w other.
Proof.
  intros Hw Ho Ht' Hp.
  eapply (received_state NullBehavior caller_memory w w' this other _ o);
    [done|done|by apply (Hw other o)| |].
  - unfold repoint. case_decide as Hu; simpl.
    + by rewrite decide_True.
    + rewrite decide_False by congruence. auto.
  - intros Hu. by rewrite decide_True.
Qed.

(** X3.  In a store that a program has produced, after a copy (by the copy
    constructor or by copy assignment) the destination answers [length()]
    and yields the characters through [get()] as the source did, whether
    the source owned them or not, and the source still does. *)
Theorem copy_reads_like_source c w w' this other :
  reachable w →
  c = construct_copy this other ∨ c = assign_copy this other →
  exec c w = Some w' →
  length w' this = length w other
  ∧ get_string w' this = get_string w other
  ∧ length w' other = length w other
  ∧ get_string w' other = get_string w other.
Proof.
  intros Hr Hc He.
  pose proof (reachable_ok CharT NullBehavior caller_memory w Hr) as Hw.
  destruct (decide (this = other)) as [->|Hne].
  { destruct Hc as [-> | ->]; simpl in He.
    - case_decide as Hf; [|done]. by rewrite Hf in He.
    - unfold copy_assign in He. rewrite decide_False in He by tauto.
      destruct (w !! other); [|done]. by injection He as <-. }
  assert (length w' other = length w other
          ∧ get_string w' other = get_string w other) as [Hlo Hso].
  { apply unchanged_reads; [done|].
    apply (exec_frame CharT NullBehavior caller_memory c); [done|].
    destruct Hc as [-> | ->]; simpl; intros Hin;
      apply list_elem_of_singleton in Hin; congruence. }
  assert (∃ t w0 o, w0 !! this = Some t ∧ w0 !! other = Some o
                    ∧ w !! other = Some o
                    ∧ _copy_used_member this other w0 = Some w')
    as (t & w0 & o & Ht & Ho0 & Ho & Hcp).
  { destruct Hc as [-> | ->]; simpl in He.
    - case_decide as Hf; [|done].
      destruct (w !! other) as [o|] eqn:Ho; simpl in He; [|done].
      exists (mk_basic_builder [] nullptr),
             (<[this:=mk_basic_builder [] nullptr]> w), o.
      by store.
    - unfold copy_assign in He. rewrite decide_True in He by done.
      unfold _copy_used_member in He.
      destruct (w !! other) as [o|] eqn:Ho; simpl in He; [|done].
      destruct (w !! this) as [t|] eqn:Ht; simpl in He; [|done].
      exists t, w, o. unfold _copy_used_member. rewrite Ho, Ht. done. }
  destruct (_copy_used_member_lookup this other w0 t o Hne Ht Ho0)
    as (w1 & Hw1 & Ht' & _).
  rewrite Hcp in Hw1. injection Hw1 as <-.
  destruct (destination_received w w' this other
              (mk_basic_builder (_m_zero_suffixed t) (_m_ptr o)) o)
    as [Hl Hs]; done.
Qed.

(** X4.  In a store that a program has produced, after a move (by the move
    constructor or by move assignment) the destination answers [length()]
    and yields the characters through [get()] as the source did before the
    move. *)
Theorem move_reads_like_source c w w' this other :
  reachable w →
  c = construct_move this other ∨ c = assign_move this other →
  exec c w = Some w' →
  length w' this = length w other
  ∧ get_string w' this = get_string w other.
Proof.
  intros Hr Hc He.
  pose proof (reachable_ok CharT NullBehavior caller_memory w Hr) as Hw.
  destruct (decide (this = other)) as [->|Hne].
  { destruct Hc as [-> | ->]; simpl in He.
    - case_decide as Hf; [|done]. by rewrite Hf in He.
    - unfold move_assign in He. rewrite decide_False in He by tauto.
      destruct (w !! other); [|done]. by injection He as <-. }
  assert (∃ t w0 o, w0 !! this = Some t ∧ w0 !! other = Some o
                    ∧ w !! other = Some o
                    ∧ _move_used_member CharT NullBehavior this other w0
                      = Some w')
    as (t & w0 & o & Ht & Ho0 & Ho & Hmv).
  { destruct Hc as [-> | ->]; simpl in He.
    - case_decide as Hf; [|done].
      destruct (w !! other) as [o|] eqn:Ho; simpl in He; [|done].
      exists (mk_basic_builder [] nullptr),
             (<[this:=mk_basic_builder [] nullptr]> w), o.
      by store.
    - unfold move_assign in He. rewrite decide_True in He by done.
      pose proof He as He'. unfold _move_used_member in He'.
      destruct (w !! other) as [o|] eqn:Ho; simpl in He'; [|done].
      destruct (w !! this) as [t|] eqn:Ht; simpl in He'; [|done].
      by exists t, w, o. }
  destruct (_move_used_member_lookup CharT NullBehavior
              this other w0 t o Hne Ht Ho0)
    as (w1 & Hw1 & Ht' & _).
  rewrite Hmv in Hw1. injection Hw1 as <-.
  destruct (destination_received w w' this other
              (mk_basic_builder (_m_zero_suffixed t) (_m_ptr o)) o)
    as [Hl Hs]; done.
Qed.

End composition.

Section round_trips.
Context (CharT : common_char_type) (NullBehavior : if_null).
Context (caller_memory : N → list value_type).

Local Abbreviation length := (length NullBehavior caller_memory).
Local Abbreviation world_ok := (world_ok NullBehavior).
Local Abbreviation reachable := (reachable CharT NullBehavior caller_memory).
Local Abbreviation move_assign := (move_assign CharT NullBehavior).
Local Abbreviation _get_ptr_nullptr := (_get_ptr_nullptr CharT NullBehavior).

(** X5.  [a.swap(b)] and [b.swap(a)] have the same effect, in every
    store. *)
Theorem swap_symmetric this other w :
  swap this other w = swap other this w.
Proof.
  destruct (decide (this = other)) as [->|Hne]; [done|].
  destruct (w !! this) as [t|] eqn:Ht;
    [|unfold swap; rewrite Ht; by destruct (w !! other)].
  destruct (w !! other) as [o|] eqn:Ho;
    [|unfold swap; by rewrite Ht, Ho].
  destruct (swap_lookup this other w t o Hne Ht Ho)
    as (w1 & t1 & o1 & -> & Ht1 & Ho1 & Hpt1 & Hpo1 & _ & _ & Hno1 & Hyes1
        & Hfr1).
  destruct (swap_lookup other this w o t (not_eq_sym Hne) Ho Ht)
    as (w2 & t2 & o2 & -> & Ht2 & Ho2 & Hpt2 & Hpo2 & _ & _ & Hno2 & Hyes2
        & Hfr2).
  f_equal. apply map_eq. intros l.
  destruct (decide (l = this)) as [->|Hl];
    [|destruct (decide (l = other)) as [->|Hl']].
  - rewrite Ht1, Ho2. f_equal. apply basic_builder_eq; [|congruence].
    destruct (decide (c_str this = _m_ptr t)) as [Hu|Hu];
      [|destruct (decide (c_str other = _m_ptr o)) as [Hu'|Hu']].
    + destruct (Hyes1 (or_introl Hu)) as [-> _].
      by destruct (Hyes2 (or_intror Hu)) as [_ ->].
    + destruct (Hyes1 (or_intror Hu')) as [-> _].
      by destruct (Hyes2 (or_introl Hu')) as [_ ->].
    + destruct (Hno1 Hu Hu') as [-> _].
      by destruct (Hno2 Hu' Hu) as [_ ->].
  - rewrite Ho1, Ht2. f_equal. apply basic_builder_eq; [|congruence].
    destruct (decide (c_str this = _m_ptr t)) as [Hu|Hu];
      [|destruct (decide (c_str other = _m_ptr o)) as [Hu'|Hu']].
    + destruct (Hyes1 (or_introl Hu)) as [_ ->].
      by destruct (Hyes2 (or_intror Hu)) as [-> _].
    + destruct (Hyes1 (or_intror Hu')) as [_ ->].
      by destruct (Hyes2 (or_introl Hu')) as [-> _].
    + destruct (Hno1 Hu Hu') as [_ ->].
      by destruct (Hno2 Hu' Hu) as [-> _].
  - by rewrite Hfr1, Hfr2.
Qed.

(** A pointer that is not the string of [y] comes back from [y] to [x] and
    back as it was. *)
Lemma repoint_back x y p :
  p ≠ c_str y → repoint y x (repoint x y p) = p.
Proof. intros Hp. unfold repoint. repeat case_decide; congruence. Qed.

Lemma repoint_owner x y p :
  x ≠ y → p ≠ c_str x → (repoint y x p = c_str x ↔ p = c_str y).
Proof.
  intros Hxy Hp. unfold repoint. case_decide; [done|]. split; congruence.
Qed.

(** X6.  In a store that a program has produced, swapping the same two
    objects twice gives back the store exactly. *)
Theorem swap_twice this other w w' :
  reachable w → swap this other w = Some w' → swap this other w' = Some w.
Proof.
  intros Hr Hs.
  pose proof (reachable_ok CharT NullBehavior caller_memory w Hr) as Hw.
  destruct (w !! this) as [t|] eqn:Ht;
    [|unfold swap in Hs; by rewrite Ht in Hs].
  destruct (w !! other) as [o|] eqn:Ho;
    [|unfold swap in Hs; by rewrite Ht, Ho in Hs].
  destruct (decide (this = other)) as [->|Hne].
  { unfold swap in Hs |- *. rewrite Ho in Hs. simpl in Hs.
    rewrite decide_True in Hs by done. injection Hs as <-.
    rewrite Ho. simpl. by rewrite decide_True. }
  destruct (swap_lookup this other w t o Hne Ht Ho)
    as (w1 & t1 & o1 & Hs1 & Ht1 & Ho1 & Hpt1 & Hpo1 & _ & _ & Hno1 & Hyes1
        & Hfr1).
  rewrite Hs in Hs1. injection Hs1 as <-.
  destruct (swap_lookup this other w' t1 o1 Hne Ht1 Ho1)
    as (w2 & t2 & o2 & -> & Ht2 & Ho2 & Hpt2 & Hpo2 & _ & _ & Hno2 & Hyes2
        & Hfr2).
  assert (_m_ptr t ≠ c_str other) as Hat.
  { intros E. destruct (Hw this t Ht) as [Hal _].
    destruct Hne. symmetry. by apply Hal. }
  assert (_m_ptr o ≠ c_str this) as Hao.
  { intros E. destruct (Hw other o Ho) as [Hal _].
    destruct Hne. by apply Hal. }
  assert (c_str this = _m_ptr t1 ↔ c_str other = _m_ptr o) as Hut.
  { rewrite Hpt1. split; intros E.
    - symmetry. apply (repoint_owner this other); [done..|by symmetry].
    - symmetry. apply (repoint_owner this other); [done..|by symmetry]. }
  assert (c_str other = _m_ptr o1 ↔ c_str this = _m_ptr t) as Huo.
  { rewrite Hpo1. split; intros E.
    - symmetry. apply (repoint_owner other this); [done..|by symmetry].
    - symmetry. apply (repoint_owner other this); [done..|by symmetry]. }
  f_equal. apply map_eq. intros l.
  destruct (decide (l = this)) as [->|Hl];
    [|destruct (decide (l = other)) as [->|Hl']].
  - rewrite Ht2, Ht. f_equal. apply basic_builder_eq.
    + destruct (decide (c_str this = _m_ptr t)) as [Hu|Hu];
        [|destruct (decide (c_str other = _m_ptr o)) as [Hu'|Hu']].
      * destruct (Hyes2 (or_intror (proj2 Huo Hu))) as [-> _].
        by destruct (Hyes1 (or_introl Hu)) as [_ ->].
      * destruct (Hyes2 (or_introl (proj2 Hut Hu'))) as [-> _].
        by destruct (Hyes1 (or_intror Hu')) as [_ ->].
      * destruct Hno2 as [-> _]; [tauto..|].
        by destruct (Hno1 Hu Hu') as [-> _].
    + rewrite Hpt2, Hpo1. by apply repoint_back.
  - rewrite Ho2, Ho. f_equal. apply basic_builder_eq.
    + destruct (decide (c_str this = _m_ptr t)) as [Hu|Hu];
        [|destruct (decide (c_str other = _m_ptr o)) as [Hu'|Hu']].
      * destruct (Hyes2 (or_intror (proj2 Huo Hu))) as [_ ->].
        by destruct (Hyes1 (or_introl Hu)) as [-> _].
      * destruct (Hyes2 (or_introl (proj2 Hut Hu'))) as [_ ->].
        by destruct (Hyes1 (or_intror Hu')) as [-> _].
      * destruct Hno2 as [_ ->]; [tauto..|].
        by destruct (Hno1 Hu Hu') as [_ ->].
    + rewrite Hpo2, Hpt1. by apply repoint_back.
  - by rewrite Hfr2, Hfr1.
Qed.

(** X7.  In a store that a program has produced, [b = std::move(a);
    a = std::move(b);] for two different objects gives [a] back its members
    exactly, and leaves [b] as the moved-from object: [get()] is what
    [_get_ptr(nullptr)] returns and [length()] is 0. *)
Theorem move_there_and_back a b w w1 w2 :
  reachable w → a ≠ b →
  move_assign b a w = Some w1 →
  move_assign a b w1 = Some w2 →
  w2 !! a = w !! a
  ∧ get w2 b = Some _get_ptr_nullptr
  ∧ length w2 b = Some 0.
Proof.
  intros Hr Hne H1 H2.
  pose proof (reachable_ok CharT NullBehavior caller_memory w Hr) as Hw.
  unfold move_assign in H1, H2.
  rewrite decide_True in H1 by done. rewrite decide_True in H2 by done.
  destruct (w !! a) as [ba|] eqn:Ha;
    [|unfold _move_used_member in H1; by rewrite Ha in H1].
  destruct (w !! b) as [bb|] eqn:Hb;
    [|unfold _move_used_member in H1; by rewrite Ha, Hb in H1].
  destruct (_move_used_member_lookup CharT NullBehavior b a w bb ba
              (not_eq_sym Hne) Hb Ha) as (w1' & E1 & Hb1 & Ha1 & _).
  rewrite H1 in E1. injection E1 as <-.
  destruct (_move_used_member_lookup CharT NullBehavior a b w1 _ _
              Hne Ha1 Hb1) as (w2' & E2 & Ha2 & Hb2 & _).
  rewrite H2 in E2. injection E2 as <-.
  split; [|split].
  - rewrite Ha2. f_equal. destruct ba as [zs p]. simpl in *.
    destruct (decide (c_str a = p)) as [<-|Hu]; simpl.
    + by rewrite decide_True.
    + rewrite decide_False; [done|]. intros E.
      destruct (Hw a _ Ha) as [Hal _]. simpl in Hal.
      destruct Hne. symmetry. apply Hal. by rewrite <- E.
  - unfold get. by rewrite Hb2.
  - by eapply length_null_state.
Qed.

End round_trips.

(** ** Where pointers come from *)

Section provenance.
Context (CharT : common_char_type) (NullBehavior : if_null).
Context (caller_memory : N → list value_type).
Context (P : const_pointer → Prop).

Local Abbreviation exec := (exec CharT NullBehavior caller_memory).
Local Abbreviation run := (run CharT NullBehavior caller_memory).
Local Abbreviation call_with := (call_with caller_memory P).
Local Abbreviation _get_ptr_nullptr := (_get_ptr_nullptr CharT NullBehavior).

Hypothesis P_null_state : P _get_ptr_nullptr.
Hypothesis P_m_zero : P (addr_m_zero CharT NullBehavior).

Lemma _get_ptr_held this strLike :
  source_with P strLike →
  (_get_ptr CharT NullBehavior this strLike []).2 = c_str this
  ∨ P (_get_ptr CharT NullBehavior this strLike []).2.
Proof.
  destruct strLike as [|p|p|cdata elems]; simpl; intros Hs;
    repeat case_decide; simpl; auto.
Qed.

Lemma _copy_used_member_held this other w t w' :
  this ≠ other → w !! this = Some t →
  (∀ l b, l ≠ this → w !! l = Some b → _m_ptr b = c_str l ∨ P (_m_ptr b)) →
  _copy_used_member this other w = Some w' → held P w'.
Proof.
  intros Hne Ht Hw Hc.
  destruct (w !! other) as [o|] eqn:Ho;
    [|unfold _copy_used_member in Hc; by rewrite Ho in Hc].
  destruct (_copy_used_member_lookup this other w t o Hne Ht Ho)
    as (w1 & E & Ht' & Hfr).
  rewrite Hc in E. injection E as <-.
  intros l b. destruct (decide (l = this)) as [->|Hl].
  - rewrite Ht'. intros [= <-]. case_decide as Hu; simpl; [by left|].
    destruct (Hw other o) as [E|HP]; [done..|congruence|by right].
  - rewrite Hfr by done. by apply Hw.
Qed.

Lemma _move_used_member_held this other w t w' :
  this ≠ other → w !! this = Some t →
  (∀ l b, l ≠ this → w !! l = Some b → _m_ptr b = c_str l ∨ P (_m_ptr b)) →
  _move_used_member CharT NullBehavior this other w = Some w' → held P w'.
Proof.
  intros Hne Ht Hw Hc.
  destruct (w !! other) as [o|] eqn:Ho;
    [|unfold _move_used_member in Hc; by rewrite Ho in Hc].
  destruct (_move_used_member_lookup CharT NullBehavior
              this other w t o Hne Ht Ho) as (w1 & E & Ht' & Ho' & Hfr).
  rewrite Hc in E. injection E as <-.
  intros l b. destruct (decide (l = this)) as [->|Hl];
    [|destruct (decide (l = other)) as [->|Hl']].
  - rewrite Ht'. intros [= <-]. case_decide as Hu; simpl; [by left|].
    destruct (Hw other o) as [E|HP]; [done..|congruence|by right].
  - rewrite Ho'. intros [= <-]. by right.
  - rewrite Hfr by done. by apply Hw.
Qed.

Lemma swap_held this other w w' :
  held P w → swap this other w = Some w' → held P w'.
Proof.
  intros Hw Hs.
  destruct (w !! this) as [t|] eqn:Ht;
    [|unfold swap in Hs; by rewrite Ht in Hs].
  destruct (w !! other) as [o|] eqn:Ho;
    [|unfold swap in Hs; by rewrite Ht, Ho in Hs].
  destruct (decide (this = other)) as [->|Hne].
  { unfold swap in Hs. rewrite Ho in Hs. simpl in Hs.
    rewrite decide_True in Hs by done. by injection Hs as <-. }
  destruct (swap_lookup this other w t o Hne Ht Ho)
    as (w1 & t1 & o1 & E & Ht1 & Ho1 & Hpt1 & Hpo1 & _ & _ & _ & _ & Hfr).
  rewrite Hs in E. injection E as <-.
  intros l b. destruct (decide (l = this)) as [->|Hl];
    [|destruct (decide (l = other)) as [->|Hl']].
  - rewrite Ht1. intros [= <-]. rewrite Hpt1. unfold repoint.
    case_decide as Hu; [by left|].
    destruct (Hw other o Ho) as [E|HP]; [congruence|by right].
  - rewrite Ho1. intros [= <-]. rewrite Hpo1. unfold repoint.
    case_decide as Hu; [by left|].
    destruct (Hw this t Ht) as [E|HP]; [congruence|by right].
  - rewrite Hfr by done. apply Hw.
Qed.

Lemma held_insert_default this w :
  held P w →
  ∀ l b, l ≠ this →
    <[this:=mk_basic_builder [] nullptr]> w !! l = Some b →
    _m_ptr b = c_str l ∨ P (_m_ptr b).
Proof. intros Hw l b Hl. rewrite lookup_insert_ne by done. apply Hw. Qed.

Lemma exec_held c w w' :
  call_with c → held P w → exec c w = Some w' → held P w'.
Proof.
  intros Hc Hw. destruct c as [this|this s|this other|this other
                              |this other|this other|this other]; simpl.
  - case_decide; [|done]. intros [= <-] l b.
    unfold basic_builder_default, basic_builder_from. simpl.
    rewrite lookup_insert_Some. intros [[<- <-]|[_ Hl]]; [by right|].
    by apply Hw.
  - case_decide; [|done].
    destruct (valid_source caller_memory s) eqn:Hv; [|done].
    intros [= <-] l b. destruct (decide (l = this)) as [->|Hl].
    + rewrite lookup_basic_builder_from. intros [= <-]. simpl.
      apply _get_ptr_held. by apply Hc.
    + unfold basic_builder_from.
      destruct (_get_ptr CharT NullBehavior this s []) as [zs p].
      rewrite lookup_insert_ne by done. apply Hw.
  - case_decide as Hf; [|done].
    destruct (w !! other) as [o|] eqn:Ho; simpl; [|done].
    apply _copy_used_member_held with (mk_basic_builder [] nullptr);
      [congruence|by store|by apply held_insert_default].
  - case_decide as Hf; [|done].
    destruct (w !! other) as [o|] eqn:Ho; simpl; [|done].
    apply _move_used_member_held with (mk_basic_builder [] nullptr);
      [congruence|by store|by apply held_insert_default].
  - unfold copy_assign. case_decide.
    + destruct (w !! this) as [t|] eqn:Ht.
      * apply _copy_used_member_held with t; [done..|]. intros l b _.
        apply Hw.
      * unfold _copy_used_member. rewrite Ht. by destruct (w !! other).
    + destruct (w !! this); [|done]. by intros [= <-].
  - unfold move_assign. case_decide.
    + destruct (w !! this) as [t|] eqn:Ht.
      * apply _move_used_member_held with t; [done..|]. intros l b _.
        apply Hw.
      * unfold _move_used_member. rewrite Ht. by destruct (w !! other).
    + destruct (w !! this); [|done]. by intros [= <-].
  - by apply swap_held.
Qed.

Lemma run_held cs w w' :
  Forall call_with cs → held P w → run cs w = Some w' → held P w'.
Proof.
  revert w. induction cs as [|c cs IH]; simpl; intros w Hcs Hw.
  - by intros [= <-].
  - inversion_clear Hcs as [|? ? Hc Hcs'].
    destruct (exec c w) as [w1|] eqn:He; [|done]. simpl.
    apply IH; [done|]. by apply exec_held with c w.
Qed.

End provenance.

Section contracts.
Context (CharT : common_char_type) (NullBehavior : if_null).
Context (caller_memory : N → list value_type).

Local Abbreviation deref := (deref caller_memory).
Local Abbreviation length := (length NullBehavior caller_memory).
Local Abbreviation exec := (exec CharT NullBehavior caller_memory).
Local Abbreviation run := (run CharT NullBehavior caller_memory).
Local Abbreviation reachable := (reachable CharT NullBehavior caller_memory).
Local Abbreviation world_ok := (world_ok NullBehavior).
Local Abbreviation terminated := (terminated caller_memory).
Local Abbreviation trusted_terminated := (trusted_terminated caller_memory).
Local Abbreviation valid_source := (valid_source caller_memory).
Local Abbreviation _get_ptr_nullptr := (_get_ptr_nullptr CharT NullBehavior).

Lemma held_empty P : held P (∅ : gmap N basic_builder).
Proof. intros l b. by rewrite lookup_empty. Qed.

(** X8.  A program never makes up a pointer: whatever store it produces,
    the pointer of each object is the object's own [c_str()], or what
    [_get_ptr(nullptr)] returns, or the address of [_m_zero], or an address
    that the caller passed to a constructor. *)
Theorem pointer_provenance cs w l b :
  run cs ∅ = Some w → w !! l = Some b →
  _m_ptr b = c_str l
  ∨ _m_ptr b = _get_ptr_nullptr
  ∨ _m_ptr b = addr_m_zero CharT NullBehavior
  ∨ _m_ptr b ∈ cs ≫= given.
Proof.
  intros Hrun Hb.
  pose (P := λ p, p = _get_ptr_nullptr ∨ p = addr_m_zero CharT NullBehavior
                  ∨ p ∈ cs ≫= given).
  assert (held P w) as Hw.
  { apply (run_held CharT NullBehavior caller_memory P) with cs ∅;
      [by left|by right; left| |apply held_empty|done].
    apply List.Forall_forall. intros c Hc.
    destruct c as [| this s | | | | |]; simpl; try done. intros _.
    assert (∀ p, p ∈ source_pointer s → P p) as Hs.
    { intros p Hp. right. right. apply list_elem_of_bind.
      exists (construct_from this s). split; [exact Hp|].
      by apply list_elem_of_In. }
    destruct s as [|p|p|cdata elems]; simpl; intros;
      try done; apply Hs; simpl; by apply list_elem_of_singleton. }
  destruct (Hw l b Hb) as [?|?]; [by left|by right].
Qed.

Lemma traits_length_elem s : 0%N ∈ s → is_Some (traits_length s).
Proof.
  induction s as [|c s IH]; simpl; [by intros ?%elem_of_nil|].
  intros Hin. case_decide; [done|].
  apply elem_of_cons in Hin as [?|Hin]; [congruence|].
  destruct (IH Hin) as [n ->]. done.
Qed.

Lemma terminated_null_state :
  (_get_ptr_nullptr = nullptr ∧ NullBehavior = keep_null_pointer)
  ∨ terminated _get_ptr_nullptr.
Proof.
  unfold _get_ptr_nullptr, terminated.
  destruct NullBehavior; [right|by left]. by eexists.
Qed.

Lemma terminated_range cdata elems :
  valid_source (range cdata elems) = true →
  elems ≠ [] → List.last elems 0%N = 0%N → terminated cdata.
Proof.
  intros Hv Hne Hl.
  destruct (valid_range_deref caller_memory cdata elems ∅ Hv Hne)
    as [rest Hd].
  unfold terminated. rewrite Hd. simpl. apply traits_length_elem.
  apply elem_of_app. left.
  destruct (exists_last Hne) as (pre & c & ->).
  rewrite last_last in Hl. subst c. apply elem_of_app. right.
  by apply list_elem_of_singleton.
Qed.

Lemma length_of_held w l b :
  held (λ p, (p = nullptr ∧ NullBehavior = keep_null_pointer)
             ∨ terminated p) w →
  w !! l = Some b → is_Some (length w l).
Proof.
  intros Hw Hb. unfold length. rewrite Hb. simpl.
  destruct (Hw l b Hb) as [Hp|[[Hp Hk]|Ht]].
  - rewrite Hp. simpl. rewrite Hb. simpl.
    destruct (c_string_zero_suffixed (_m_zero_suffixed b)) as [k Hk].
    rewrite traits_length_c_string, Hk.
    by destruct NullBehavior.
  - rewrite Hp, Hk. done.
  - assert (is_caller_owned (_m_ptr b) = true) as Hown.
    { unfold terminated in Ht. destruct (_m_ptr b); try done.
      simpl in Ht. rewrite lookup_empty in Ht. by destruct Ht. }
    assert (_m_ptr b ≠ nullptr) as Hn.
    { intros E. unfold terminated in Ht. rewrite E in Ht. by destruct Ht. }
    rewrite (deref_caller_owned caller_memory w ∅) by done.
    destruct NullBehavior; [done|]. by rewrite decide_True.
Qed.

(** X9.  When every pointer that is not null and every string or path that
    a program passes to a constructor leads to a null character,
    [length()] has a value for every object of every store the program
    produces: the scan never runs off an array and never reads through a
    null pointer. *)
Theorem length_always_defined cs w l :
  run cs ∅ = Some w → Forall trusted_terminated cs →
  is_Some (w !! l) → is_Some (length w l).
Proof.
  intros Hrun Hcs [b Hb]. apply length_of_held with b; [|done].
  eapply (run_held CharT NullBehavior caller_memory) with cs ∅;
    [apply terminated_null_state|right; by eexists| |apply held_empty|done].
  eapply List.Forall_impl; [|exact Hcs].
  intros c Hc. destruct c as [| this s | | | | |]; simpl; try done.
  intros Hv. destruct s as [|p|p|cdata elems]; simpl in *.
  - done.
  - intros Hp. right. by apply Hc.
  - by right.
  - intros Hne Hl. right. by apply terminated_range with elems.
Qed.

Lemma _get_ptr_owner_filled this strLike :
  valid_source strLike = true →
  (_get_ptr CharT NullBehavior this strLike []).2 = c_str this →
  (_get_ptr CharT NullBehavior this strLike []).1 ≠ [].
Proof.
  destruct strLike as [|p|p|cdata elems]; simpl.
  - unfold _get_ptr_nullptr. by destruct NullBehavior.
  - intros Hp. case_decide; simpl.
    + unfold _get_ptr_nullptr. by destruct NullBehavior.
    + intros ->. done.
  - by destruct p.
  - intros [Hown _]%andb_prop. repeat case_decide; simpl; try done.
    intros ->. done.
Qed.

Lemma exec_owner_filled c w w' :
  world_ok w → owner_filled w → exec c w = Some w' → owner_filled w'.
Proof.
  intros Hok Hw He l b Hb Hp.
  destruct (decide (l ∈ written c)) as [Hin|Hout];
    [|rewrite (exec_frame CharT NullBehavior caller_memory c w w' l He Hout)
        in Hb; by apply (Hw l b)].
  destruct c as [this|this s|this other|this other
                |this other|this other|this other]; simpl in He, Hin.
  - case_decide; [|done]. injection He as <-.
    apply list_elem_of_singleton in Hin as ->.
    unfold basic_builder_default in Hb.
    rewrite lookup_basic_builder_from in Hb. injection Hb as <-.
    simpl in Hp. unfold _get_ptr_nullptr in Hp. by destruct NullBehavior.
  - case_decide; [|done]. destruct (valid_source s) eqn:Hv; [|done].
    injection He as <-. apply list_elem_of_singleton in Hin as ->.
    rewrite lookup_basic_builder_from in Hb. injection Hb as <-.
    by apply _get_ptr_owner_filled.
  - case_decide as Hf; [|done].
    destruct (w !! other) as [o|] eqn:Ho; simpl in He; [|done].
    apply list_elem_of_singleton in Hin as ->.
    assert (this ≠ other) as Hne by congruence.
    destruct (_copy_used_member_lookup this other
                (<[this:=mk_basic_builder [] nullptr]> w)
                (mk_basic_builder [] nullptr) o Hne)
      as (w1 & E & Ht' & _); [by store..|].
    unfold basic_builder_copy in He. rewrite He in E. injection E as <-.
    rewrite Ht' in Hb. injection Hb as <-. case_decide as Hu; simpl in *.
    + by apply (Hw other o).
    + destruct (Hok other o Ho) as [Hal _]. destruct Hne. by apply Hal.
  - case_decide as Hf; [|done].
    destruct (w !! other) as [o|] eqn:Ho; simpl in He; [|done].
    assert (this ≠ other) as Hne by congruence.
    destruct (_move_used_member_lookup CharT NullBehavior this other
                (<[this:=mk_basic_builder [] nullptr]> w)
                (mk_basic_builder [] nullptr) o Hne)
      as (w1 & E & Ht' & Ho' & _); [by store..|].
    unfold basic_builder_move in He. rewrite He in E. injection E as <-.
    apply elem_of_cons in Hin as [->|Hin%list_elem_of_singleton].
    + rewrite Ht' in Hb. injection Hb as <-. case_decide as Hu; simpl in *.
      * by apply (Hw other o).
      * destruct (Hok other o Ho) as [Hal _]. destruct Hne. by apply Hal.
    + subst l. rewrite Ho' in Hb. injection Hb as <-. simpl in Hp.
      unfold _get_ptr_nullptr in Hp. by destruct NullBehavior.
  - unfold copy_assign in He. case_decide as Hne.
    + apply list_elem_of_singleton in Hin as ->.
      destruct (w !! other) as [o|] eqn:Ho;
        [|unfold _copy_used_member in He; by rewrite Ho in He].
      destruct (w !! this) as [t|] eqn:Ht;
        [|unfold _copy_used_member in He; by rewrite Ho, Ht in He].
      destruct (_copy_used_member_lookup this other w t o Hne Ht Ho)
        as (w1 & E & Ht' & _).
      rewrite He in E. injection E as <-.
      rewrite Ht' in Hb. injection Hb as <-. case_decide as Hu; simpl in *.
      * by apply (Hw other o).
      * destruct (Hok other o Ho) as [Hal _]. destruct Hne. by apply Hal.
    + destruct (w !! this); [|done]. injection He as <-. by apply (Hw l b).
  - unfold move_assign in He. case_decide as Hne.
    + destruct (w !! other) as [o|] eqn:Ho;
        [|unfold _move_used_member in He; by rewrite Ho in He].
      destruct (w !! this) as [t|] eqn:Ht;
        [|unfold _move_used_member in He; by rewrite Ho, Ht in He].
      destruct (_move_used_member_lookup CharT NullBehavior
                  this other w t o Hne Ht Ho)
        as (w1 & E & Ht' & Ho' & _).
      rewrite He in E. injection E as <-.
      apply elem_of_cons in Hin as [->|Hin%list_elem_of_singleton].
      * rewrite Ht' in Hb. injection Hb as <-.
        case_decide as Hu; simpl in *.
        -- by apply (Hw other o).
        -- destruct (Hok other o Ho) as [Hal _]. destruct Hne.
           by apply Hal.
      * subst l. rewrite Ho' in Hb. injection Hb as <-. simpl in Hp.
        unfold _get_ptr_nullptr in Hp. by destruct NullBehavior.
    + destruct (w !! this); [|done]. injection He as <-. by apply (Hw l b).
  - destruct (w !! this) as [t|] eqn:Ht;
      [|unfold swap in He; by rewrite Ht in He].
    destruct (w !! other) as [o|] eqn:Ho;
      [|unfold swap in He; by rewrite Ht, Ho in He].
    destruct (decide (this = other)) as [->|Hne].
    { unfold swap in He. rewrite Ho in He. simpl in He.
      rewrite decide_True in He by done. injection He as <-.
      by apply (Hw l b). }
    destruct (swap_lookup this other w t o Hne Ht Ho)
      as (w1 & t1 & o1 & E & Ht1 & Ho1 & Hpt1 & Hpo1 & _ & _ & _ & Hyes
          & _).
    rewrite He in E. injection E as <-.
    destruct (Hok this t Ht) as [Halt _].
    destruct (Hok other o Ho) as [Halo _].
    apply elem_of_cons in Hin as [->|Hin%list_elem_of_singleton].
    + rewrite Ht1 in Hb. injection Hb as <-.
      assert (_m_ptr o = c_str other) as Hu.
      { apply (repoint_owner this other); [done| |congruence].
        intros E. destruct Hne. by apply Halo. }
      destruct (Hyes (or_intror (eq_sym Hu))) as [-> _].
      by apply (Hw other o).
    + subst l. rewrite Ho1 in Hb. injection Hb as <-.
      assert (_m_ptr t = c_str this) as Hu.
      { apply (repoint_owner other this); [done| |congruence].
        intros E. destruct Hne. symmetry. by apply Halt. }
      destruct (Hyes (or_introl (eq_sym Hu))) as [_ ->].
      by apply (Hw this t).
Qed.

(** X10.  The converse of invariant I2 holds in every store that a program
    produces, assignments included: an object whose pointer is its own
    [c_str()] holds a string that is not empty, so the comparison of
    [_m_ptr] with [c_str()] never takes a default-constructed string for a
    used one. *)
Theorem owner_holds_characters w l b :
  reachable w → w !! l = Some b →
  _m_ptr b = c_str l → _m_zero_suffixed b ≠ [].
Proof.
  intros [cs Hrun]. revert l b.
  assert (∀ cs w0 w, world_ok w0 → owner_filled w0 →
            run cs w0 = Some w → owner_filled w) as Hgen.
  { clear. induction cs as [|c cs IH]; simpl; intros w0 w Hok Hw.
    - by intros [= <-].
    - destruct (exec c w0) as [w1|] eqn:He; simpl; [|done].
      apply IH.
      + by apply (exec_ok CharT NullBehavior caller_memory c w0).
      + by apply exec_owner_filled with c w0. }
  apply (Hgen cs ∅ w); [| |done].
  - intros l b. by rewrite lookup_empty.
  - intros l b. by rewrite lookup_empty.
Qed.

End contracts.

(** X11.  Each of the 17 calls of [print_info] in [main] passes a source
    that is well formed for the memory [main] declares, and prints the
    pointer that the announced letter of the legend stands for and the
    announced length, wherever the local builder [csb] lives. *)
Theorem main_prints_what_it_announces csb :
  Forall (λ '(e, len, string_like),
            valid_source tests_memory string_like = true
            ∧ print_info csb string_like
              = (legend_pointer csb e string_like, Some len))
         main.
Proof.
  repeat constructor;
    unfold print_info, get, length, basic_builder_from; simpl;
    rewrite ?lookup_insert_eq; simpl; rewrite ?lookup_insert_eq;
    reflexivity.
Qed.

Section reading.
Context (CharT : common_char_type) (NullBehavior : if_null).
Context (caller_memory : N → list value_type).

Local Abbreviation deref := (deref caller_memory).
Local Abbreviation length := (length NullBehavior caller_memory).
Local Abbreviation get_string := (get_string caller_memory).
Local Abbreviation valid_source := (valid_source caller_memory).
Local Abbreviation basic_builder_from := (basic_builder_from CharT NullBehavior).
Local Abbreviation run := (run CharT NullBehavior caller_memory).

(** The C string at the start of an array that holds a null character does
    not depend on what follows. *)
Lemma c_string_prefix s r r' :
  0%N ∈ s → c_string (s ++ r) = c_string (s ++ r').
Proof.
  induction s as [|c s IH]; simpl; [by intros ?%elem_of_nil|].
  intros Hin. case_decide; [done|].
  apply elem_of_cons in Hin as [?|Hin]; [congruence|]. by rewrite IH.
Qed.

Lemma last_null_elem (elems : list value_type) :
  elems ≠ [] → List.last elems 0%N = 0%N → 0%N ∈ elems.
Proof.
  intros Hne Hl. destruct (exists_last Hne) as (pre & c & ->).
  rewrite last_last in Hl. subst c. apply elem_of_app. right.
  by apply list_elem_of_singleton.
Qed.

(** X12.  Whichever way [_get_ptr] takes for a range (the static zero value,
    the range's own memory, or a copy), the builder reads as the range with
    a terminator behind it: the characters read through [get()] are those
    of the range up to its first null character, all of them when it has
    none, and [length()] is their number. *)
Theorem range_reads_as_terminated this cdata elems w :
  valid_source (range cdata elems) = true →
  let w' := basic_builder_from this (range cdata elems) w in
  get_string w' this = c_string (elems ++ [0%N])
  ∧ length w' this = List.length <$> c_string (elems ++ [0%N]).
Proof.
  intros Hv w'.
  pose proof (lookup_basic_builder_from CharT NullBehavior this
                (range cdata elems) w) as Hb. fold w' in Hb.
  assert (∃ b, w' !! this = Some b ∧ _m_ptr b ≠ nullptr
               ∧ (deref w' (_m_ptr b) ≫= c_string)
                 = c_string (elems ++ [0%N])) as (b & Hb' & Hn & Hd).
  { eexists. split; [exact Hb|]. simpl in *.
    destruct (decide (elems = [])) as [->|Hne]; simpl; [done|].
    case_decide as Hl; simpl.
    - split; [done|]. by rewrite Hb.
    - destruct (valid_range_deref caller_memory cdata elems w' Hv Hne)
        as [rest Hr].
      split; [intros E; by rewrite E in Hr|]. rewrite Hr. simpl.
      apply c_string_prefix. by apply last_null_elem. }
  split.
  - unfold get_string. rewrite Hb'. exact Hd.
  - unfold length. rewrite Hb'. simpl. rewrite <- Hd.
    destruct (deref w' (_m_ptr b)) as [m|]; simpl.
    + rewrite traits_length_c_string.
      destruct NullBehavior; [done|]. by rewrite decide_True.
    + destruct NullBehavior; [done|]. by rewrite decide_True.
Qed.

Lemma run_cons c cs w w' :
  run (c :: cs) w = Some w' →
  ∃ w1, exec CharT NullBehavior caller_memory c w = Some w1
        ∧ run cs w1 = Some w'.
Proof.
  simpl. destruct (exec CharT NullBehavior caller_memory c w) as [w1|];
    simpl; [|done]. intros H. by exists w1.
Qed.

Lemma _get_ptr_caller_owned this strLike :
  valid_source strLike = true →
  (_get_ptr CharT NullBehavior this strLike []).2 = c_str this
  ∨ is_caller_owned (_get_ptr CharT NullBehavior this strLike []).2 = true.
Proof.
  destruct strLike as [|p|p|cdata elems]; simpl.
  - intros _. right. unfold _get_ptr_nullptr. by destruct NullBehavior.
  - intros Hp. right. case_decide; simpl; [|done].
    unfold _get_ptr_nullptr. by destruct NullBehavior.
  - intros Hp. right. by destruct p.
  - intros [Hown _]%andb_prop. repeat case_decide; simpl; auto.
Qed.

Lemma lookup_basic_builder_from_ne this strLike w l :
  this ≠ l → basic_builder_from this strLike w !! l = w !! l.
Proof.
  intros Hne. unfold basic_builder_from.
  destruct (_get_ptr CharT NullBehavior this strLike []) as [zs p].
  by rewrite lookup_insert_ne.
Qed.

Lemma exec_construct_from this strLike w w1 :
  exec CharT NullBehavior caller_memory (construct_from this strLike) w
  = Some w1 →
  w !! this = None ∧ valid_source strLike = true
  ∧ w1 = basic_builder_from this strLike w.
Proof.
  simpl. case_decide; [|done]. destruct (valid_source strLike); [|done].
  by intros [= <-].
Qed.

Lemma exec_construct_default this w w1 :
  exec CharT NullBehavior caller_memory (construct_default this) w
  = Some w1 →
  w !! this = None ∧ w1 = basic_builder_default CharT NullBehavior this w.
Proof. simpl. case_decide; [|done]. by intros [= <-]. Qed.

(** The members that direct construction gives, by what [_get_ptr] returns
    for the same source at another location. *)
Lemma _get_ptr_relocate csb csb2 strLike :
  valid_source strLike = true →
  let r2 := _get_ptr CharT NullBehavior csb2 strLike [] in
  _get_ptr CharT NullBehavior csb strLike []
  = (r2.1, if decide (c_str csb2 = r2.2) then c_str csb else r2.2).
Proof.
  destruct strLike as [|p|p|cdata elems]; simpl.
  - intros _. unfold _get_ptr_nullptr. by destruct NullBehavior.
  - intros Hp. case_decide; simpl.
    + unfold _get_ptr_nullptr. by destruct NullBehavior.
    + rewrite decide_False; [done|]. intros <-. done.
  - intros Hp. rewrite decide_False; [done|]. intros <-. done.
  - intros [Hown _]%andb_prop. repeat case_decide; simpl in *; try done;
      match goal with H : c_str _ = _ |- _ => by rewrite <- H in * end.
Qed.

(** What a copy or move from the builder at [csb2] leaves in a fresh
    builder at [csb] is what direct construction at [csb] gives. *)
Lemma relocated_destination csb csb2 strLike :
  valid_source strLike = true →
  let r2 := _get_ptr CharT NullBehavior csb2 strLike [] in
  let r := _get_ptr CharT NullBehavior csb strLike [] in
  (if decide (c_str csb2 = r2.2)
   then mk_basic_builder r2.1 (c_str csb)
   else mk_basic_builder [] r2.2)
  = mk_basic_builder r.1 r.2.
Proof.
  destruct strLike as [|p|p|cdata elems]; simpl; intros Hv;
    try apply andb_prop in Hv as [Hv _];
    repeat case_decide; simpl in *; unfold _get_ptr_nullptr in *;
    destruct NullBehavior; try done;
    match goal with H : c_str _ = _ |- _ => by rewrite <- H in * end.
Qed.

(** X13.  The three variants of [print_info] that [tests.cpp] keeps in
    comments (construct and swap with a default-constructed builder,
    construct and copy, default-construct and move-assign from a temporary)
    leave the builder [csb] with exactly the members that direct
    construction from the same source gives it. *)
Theorem print_info_variants_agree csb csb2 string_like cs w w' :
  cs ∈ print_info_variants csb csb2 string_like →
  run cs w = Some w' →
  w' !! csb = basic_builder_from csb string_like w !! csb.
Proof.
  intros Hcs Hrun. rewrite lookup_basic_builder_from.
  unfold print_info_variants in Hcs.
  repeat (apply elem_of_cons in Hcs as [->|Hcs]);
    [| | |by apply elem_of_nil in Hcs].
  - apply run_cons in Hrun as (w1 & H1 & Hrun).
    apply run_cons in Hrun as (w2 & H2 & Hrun).
    apply run_cons in Hrun as (w3 & H3 & Hrun).
    injection Hrun as <-.
    apply exec_construct_from in H1 as (Hf2 & Hv & ->).
    apply exec_construct_default in H2 as (Hf & ->).
    simpl in H3.
    assert (csb2 ≠ csb) as Hne.
    { intros ->. by rewrite lookup_basic_builder_from in Hf. }
    unfold basic_builder_default in H3.
    pose proof (lookup_basic_builder_from CharT NullBehavior csb nullptr_t
                  (basic_builder_from csb2 string_like w)) as Ho.
    assert (basic_builder_from csb nullptr_t
              (basic_builder_from csb2 string_like w) !! csb2
            = Some (mk_basic_builder
                      (_get_ptr CharT NullBehavior csb2 string_like []).1
                      (_get_ptr CharT NullBehavior csb2 string_like []).2))
      as Ht.
    { rewrite lookup_basic_builder_from_ne by done.
      apply lookup_basic_builder_from. }
    destruct (swap_lookup csb2 csb _ _ _ Hne Ht Ho)
      as (w3' & t' & o' & E & _ & Ho' & _ & Hpo & _ & Hzo & Hno & Hyes & _).
    rewrite H3 in E. injection E as <-. rewrite Ho'. f_equal.
    rewrite (_get_ptr_relocate csb csb2 string_like Hv). simpl in *.
    assert (c_str csb ≠ _get_ptr_nullptr CharT NullBehavior) as Hd
      by (unfold _get_ptr_nullptr; by destruct NullBehavior).
    apply basic_builder_eq; simpl.
    + destruct (decide (c_str csb2
                        = (_get_ptr CharT NullBehavior csb2 string_like []).2))
        as [Hu|Hu].
      * by apply Hzo.
      * destruct (Hno Hu Hd) as [_ ->].
        destruct (_get_ptr_caller_owned csb2 string_like Hv) as [E|Hown];
          [congruence|].
        pose proof (only_ranges_fill CharT NullBehavior csb2 string_like ∅ _
                      (lookup_basic_builder_from CharT NullBehavior csb2
                         string_like ∅)) as Hfill. simpl in Hfill.
        destruct (_get_ptr CharT NullBehavior csb2 string_like []).1
          as [|c zs] eqn:Hz; [done|].
        destruct Hfill as (cd & el & -> & Hel & Hl); [done|].
        simpl in Hu. rewrite decide_False, decide_True in Hu by done.
        by destruct Hu.
    + rewrite Hpo. unfold repoint. repeat case_decide; congruence.
  - apply run_cons in Hrun as (w1 & H1 & Hrun).
    apply run_cons in Hrun as (w2 & H2 & Hrun).
    injection Hrun as <-.
    apply exec_construct_from in H1 as (Hf2 & Hv & ->).
    simpl in H2. case_decide as Hf; [|done].
    rewrite lookup_basic_builder_from in H2. simpl in H2.
    assert (csb ≠ csb2) as Hne.
    { intros ->. by rewrite lookup_basic_builder_from in Hf. }
    unfold basic_builder_copy in H2.
    assert (<[csb:=mk_basic_builder [] nullptr]>
              (basic_builder_from csb2 string_like w) !! csb2
            = Some (mk_basic_builder
                      (_get_ptr CharT NullBehavior csb2 string_like []).1
                      (_get_ptr CharT NullBehavior csb2 string_like []).2))
      as Ho.
    { rewrite lookup_insert_ne by done. apply lookup_basic_builder_from. }
    destruct (_copy_used_member_lookup csb csb2 _
                (mk_basic_builder [] nullptr) _ Hne
                (lookup_insert_eq _ _ _) Ho)
      as (w2' & E & Ht' & _).
    rewrite H2 in E. injection E as <-. rewrite Ht'. f_equal.
    simpl. by apply relocated_destination.
  - apply run_cons in Hrun as (w1 & H1 & Hrun).
    apply run_cons in Hrun as (w2 & H2 & Hrun).
    apply run_cons in Hrun as (w3 & H3 & Hrun).
    injection Hrun as <-.
    apply exec_construct_default in H1 as (Hf & ->).
    apply exec_construct_from in H2 as (Hf2 & Hv & ->).
    simpl in H3.
    assert (csb ≠ csb2) as Hne.
    { intros ->. unfold basic_builder_default in Hf2.
      by rewrite lookup_basic_builder_from in Hf2. }
    unfold move_assign in H3. rewrite decide_True in H3 by done.
    pose proof (lookup_basic_builder_from CharT NullBehavior csb2 string_like
                  (basic_builder_default CharT NullBehavior csb w)) as Ho.
    assert (basic_builder_from csb2 string_like
              (basic_builder_default CharT NullBehavior csb w) !! csb
            = Some (mk_basic_builder
                      (_get_ptr CharT NullBehavior csb nullptr_t []).1
                      (_get_ptr CharT NullBehavior csb nullptr_t []).2))
      as Ht.
    { rewrite lookup_basic_builder_from_ne by done.
      apply lookup_basic_builder_from. }
    destruct (_move_used_member_lookup CharT NullBehavior csb csb2
                _ _ _ Hne Ht Ho)
      as (w3' & E & Ht' & _).
    rewrite H3 in E. injection E as <-. rewrite Ht'. f_equal.
    simpl. by apply relocated_destination.
Qed.

End reading.

(** ** Instances of the further theorems *)

Lemma calls_write_only_their_objects_witness :
  <[0%N := mk_basic_builder ABC (addr_m_zero char make_zero_length)]>
    owner_store !! 1%N = owner_store !! 1%N
  ∧ (reachable char make_zero_length example_memory owner_store →
     length make_zero_length example_memory
       (<[0%N := mk_basic_builder ABC (addr_m_zero char make_zero_length)]>
          owner_store) 1%N
     = length make_zero_length example_memory owner_store 1%N
     ∧ get_string example_memory
         (<[0%N := mk_basic_builder ABC (addr_m_zero char make_zero_length)]>
            owner_store) 1%N
       = get_string example_memory owner_store 1%N).
Proof.
  apply (calls_write_only_their_objects char make_zero_length example_memory
           (assign_copy 0 1) owner_store _ 1).
  - reflexivity.
  - compute_done.
Defined.

Lemma dtor_leaves_the_others_witness :
  delete 0%N owner_store !! 0%N = None
  ∧ delete 0%N owner_store !! 1%N = owner_store !! 1%N
  ∧ length make_zero_length example_memory (delete 0%N owner_store) 1%N
    = length make_zero_length example_memory owner_store 1%N
  ∧ get_string example_memory (delete 0%N owner_store) 1%N
    = get_string example_memory owner_store 1%N.
Proof.
  apply (dtor_leaves_the_others char make_zero_length example_memory
           owner_store _ 0 1).
  - exists owner_and_default. reflexivity.
  - reflexivity.
  - compute_done.
Defined.

Lemma copy_reads_like_source_witness :
  ∃ w', exec char make_zero_length example_memory (assign_copy 1 0)
          owner_store = Some w'
    ∧ length make_zero_length example_memory w' 1%N = Some 3
    ∧ get_string example_memory w' 1%N = Some ABC.
Proof.
  eexists. split; [reflexivity|].
  destruct (copy_reads_like_source char make_zero_length example_memory
              (assign_copy 1 0) owner_store _ 1 0
              (ex_intro _ owner_and_default eq_refl)
              (or_intror eq_refl) eq_refl) as (Hl & Hs & _).
  split; [exact Hl|exact Hs].
Defined.

Lemma move_reads_like_source_witness :
  ∃ w', exec char make_zero_length example_memory (assign_move 1 0)
          owner_store = Some w'
    ∧ length make_zero_length example_memory w' 1%N = Some 3
    ∧ get_string example_memory w' 1%N = Some ABC.
Proof.
  eexists. split; [reflexivity|].
  destruct (move_reads_like_source char make_zero_length example_memory
              (assign_move 1 0) owner_store _ 1 0
              (ex_intro _ owner_and_default eq_refl)
              (or_intror eq_refl) eq_refl) as (Hl & Hs).
  split; [exact Hl|exact Hs].
Defined.

Lemma swap_twice_witness :
  swap 0 1
    (<[1%N := mk_basic_builder ABC (c_str 1)]>
       (<[0%N := mk_basic_builder [] (addr_m_zero char make_zero_length)]> ∅))
  = Some owner_store.
Proof.
  apply (swap_twice char make_zero_length example_memory 0 1 owner_store).
  - exists owner_and_default. reflexivity.
  - reflexivity.
Defined.

Lemma move_there_and_back_witness :
  owner_store !! 0%N = owner_store !! 0%N
  ∧ get owner_store 1%N = Some (_get_ptr_nullptr char make_zero_length)
  ∧ length make_zero_length example_memory owner_store 1%N = Some 0.
Proof.
  apply (move_there_and_back char make_zero_length example_memory 0 1
           owner_store
           (<[1%N := mk_basic_builder ABC (c_str 1)]>
              (<[0%N := mk_basic_builder []
                          (addr_m_zero char make_zero_length)]> ∅))
           owner_store).
  - exists owner_and_default. reflexivity.
  - compute_done.
  - reflexivity.
  - reflexivity.
Defined.

Lemma pointer_provenance_witness :
  addr_caller 200 = c_str 1
  ∨ addr_caller 200 = _get_ptr_nullptr char make_zero_length
  ∨ addr_caller 200 = addr_m_zero char make_zero_length
  ∨ addr_caller 200
    ∈ [construct_from 0 (pointer (addr_caller 200)); construct_copy 1 0]
      ≫= given.
Proof.
  exact (pointer_provenance char make_zero_length example_memory
           [construct_from 0 (pointer (addr_caller 200)); construct_copy 1 0]
           (<[1%N := mk_basic_builder [] (addr_caller 200)]>
              (<[0%N := mk_basic_builder [] (addr_caller 200)]> ∅))
           1 (mk_basic_builder [] (addr_caller 200)) eq_refl eq_refl).
Defined.

Lemma length_always_defined_witness :
  is_Some (length make_zero_length example_memory
             (<[1%N := mk_basic_builder [] (addr_caller 200)]>
                (<[0%N := mk_basic_builder [] (addr_caller 200)]> ∅)) 1%N).
Proof.
  apply (length_always_defined char make_zero_length example_memory
           [construct_from 0 (pointer (addr_caller 200));
            construct_copy 1 0]).
  - reflexivity.
  - repeat constructor. intros _. by eexists.
  - by eexists.
Defined.

Lemma range_reads_as_terminated_witness :
  get_string example_memory
    (basic_builder_from char make_zero_length 0
       (range (addr_caller 200) (ABC ++ [0%N])) ∅) 0%N
  = c_string ((ABC ++ [0%N]) ++ [0%N])
  ∧ length make_zero_length example_memory
      (basic_builder_from char make_zero_length 0
         (range (addr_caller 200) (ABC ++ [0%N])) ∅) 0%N
    = List.length <$> c_string ((ABC ++ [0%N]) ++ [0%N]).
Proof.
  apply (range_reads_as_terminated char make_zero_length example_memory
           0 (addr_caller 200) (ABC ++ [0%N]) ∅).
  reflexivity.
Defined.

Lemma print_info_variants_agree_witness :
  <[0%N := mk_basic_builder ABC (c_str 0)]>
    (<[1%N := mk_basic_builder ABC (c_str 1)]>
       (∅ : gmap N basic_builder)) !! 0%N
  = basic_builder_from char make_zero_length 0
      (range (addr_caller 100) ABC) ∅ !! 0%N.
Proof.
  apply (print_info_variants_agree char make_zero_length example_memory
           0 1 (range (addr_caller 100) ABC)
           [construct_from 1 (range (addr_caller 100) ABC);
            construct_copy 0 1] ∅).
  - unfold print_info_variants. constructor. constructor.
  - reflexivity.
Defined.

Lemma owner_holds_characters_witness : ABC ≠ [].
Proof.
  apply (owner_holds_characters char make_zero_length example_memory
           owner_store 0 (mk_basic_builder ABC (c_str 0))).
  - exists owner_and_default. reflexivity.
  - reflexivity.
  - reflexivity.
Defined.
